(** * GLaDOS voice pipeline: a shallow embedding of [glados.py]

    The orchestration class [Glados] is modelled by explicit state passing.
    Python values are represented as follows.

    - [str] is a list of Unicode code points ([N]); literals are written
      with [py].
    - [int] is [Z]; [bool] is [bool]; [None]-able values are [option].
    - a raised exception or a call that blocks is a [result] other than [Ok].
    - the fields of [self] form the record [Glados]; the local variables of
      the TTS worker form the record [tts_locals].
    - values read from other threads or from the outside world (the
      [processing] flag polled inside a loop, the HTTP response, the length
      of a synthesised clip, elapsed time) are arguments of the step
      functions.
    - the collaborators that are not part of [glados.py] (ASR model,
      [str.lower], [Levenshtein.distance]) are the operations of the class
      [Collaborators]. *)

From Stdlib Require Import String Ascii.
From Stdlib Require Import List ZArith NArith Bool Lia.
Import ListNotations.
Local Open Scope Z_scope.

(** ** Python built-ins *)

Module Py.

Definition char := N.
Definition str := list char.

(** A literal: the code points of an ASCII string. *)
Definition py (s : string) : str :=
  List.map N_of_ascii (list_ascii_of_string s).

Fixpoint str_eqb (a b : str) : bool :=
  match a, b with
  | [], [] => true
  | x :: a', y :: b' => N.eqb x y && str_eqb a' b'
  | _, _ => false
  end.

(** Truthiness of a sequence: [if s:]. *)
Definition truthy {A} (l : list A) : bool :=
  match l with [] => false | _ => true end.

(** [x in l] for a list of strings. *)
Definition str_in (x : str) (l : list str) : bool :=
  existsb (str_eqb x) l.

(** [sep.join(l)]. *)
Fixpoint join (sep : str) (l : list str) : str :=
  match l with
  | [] => []
  | x :: rest =>
      match rest with
      | [] => x
      | _ => x ++ sep ++ join sep rest
      end
  end.

(** [s.endswith(w)]. *)
Definition endswith (s w : str) : bool :=
  (length w <=? length s)%nat
  && str_eqb (skipn (length s - length w) s) w.

(** [s.removesuffix(w)]: the suffix is dropped when it is non-empty and
    the string ends with it. *)
Definition removesuffix (s w : str) : str :=
  if truthy w && endswith s w
  then firstn (length s - length w) s
  else s.

(** Code points for which [str.isspace] holds; [str.split()] splits on
    runs of them. *)
Definition isspace (c : char) : bool :=
  ((9 <=? c) && (c <=? 13) || (28 <=? c) && (c <=? 32)
   || (c =? 133) || (c =? 160) || (c =? 5760)
   || (8192 <=? c) && (c <=? 8202)
   || (c =? 8232) || (c =? 8233) || (c =? 8239) || (c =? 8287)
   || (c =? 12288))%N.

(** [s.split()]: [word] is the token being read. *)
Fixpoint split_from (word : str) (s : str) : list str :=
  match s with
  | [] => if truthy word then [word] else []
  | c :: rest =>
      if isspace c
      then (if truthy word then word :: split_from [] rest
            else split_from [] rest)
      else split_from (word ++ [c]) rest
  end.

Definition split (s : str) : list str := split_from [] s.

(** [l[:n]] for a possibly negative bound. *)
Definition slice_to {A} (n : Z) (l : list A) : list A :=
  if n <? 0
  then firstn (length l - Z.to_nat (- n)) l
  else firstn (Z.to_nat n) l.

(** [round(num / den)] for [den > 0], computed exactly: ties go to the
    even neighbour. *)
Definition round_div (num den : Z) : Z :=
  let q := num / den in
  let r := num mod den in
  if 2 * r <? den then q
  else if den <? 2 * r then q + 1
  else if Z.even q then q else q + 1.

Inductive exn :=
| ValueError | IndexError | TypeError | AttributeError | ZeroDivisionError.

(** Outcome of a call: a value, a raised exception, or a call that never
    returns because it waits on a full queue. *)
Inductive result (A : Type) : Type :=
| Ok (a : A)
| Raise (e : exn)
| Blocked.
Arguments Ok {A} a.
Arguments Raise {A} e.
Arguments Blocked {A}.

Definition bind {A B} (m : result A) (k : A -> result B) : result B :=
  match m with
  | Ok a => k a
  | Raise e => Raise e
  | Blocked => Blocked
  end.

(** [min(l)] raises [ValueError] on an empty list. *)
Definition py_min (l : list Z) : result Z :=
  match l with
  | [] => Raise ValueError
  | x :: rest => Ok (fold_left Z.min rest x)
  end.

(** A list comprehension whose element expression may raise. *)
Fixpoint comprehension {A B} (f : A -> result B) (l : list A)
  : result (list B) :=
  match l with
  | [] => Ok []
  | x :: rest =>
      bind (f x) (fun y =>
      bind (comprehension f rest) (fun ys => Ok (y :: ys)))
  end.

(** [l[0]]. *)
Definition first {A} (l : list A) : result A :=
  match l with
  | [] => Raise IndexError
  | x :: _ => Ok x
  end.

(** [a // b] on integers. *)
Definition floordiv (a b : Z) : result Z :=
  if b =? 0 then Raise ZeroDivisionError else Ok (a / b).

(** [queue.Queue] with [maxsize]; a bound of zero or less means
    unbounded. *)
Definition full {A} (maxsize : Z) (q : list A) : bool :=
  (0 <? maxsize) && (maxsize <=? Z.of_nat (length q)).

Definition put {A} (maxsize : Z) (x : A) (q : list A) : result (list A) :=
  if full maxsize q then Blocked else Ok (q ++ [x]).

End Py.

Export Py.

Notation "x <- m ;; k" := (bind m (fun x => k))
  (at level 61, m at next level, right associativity).

(** ** The two regular-expression substitutions of [_process_sentence] *)

Module Regex.

Definition star : char := 42%N.
Definition lparen : char := 40%N.
Definition rparen : char := 41%N.
Definition newline : char := 10%N.

(** Lazy [.*?] followed by the closing delimiter [d], read after the
    opening one: the number of characters consumed up to and including
    the first [d], provided no newline comes first ([.] does not match a
    newline). *)
Fixpoint close_at (d : char) (s : str) : option nat :=
  match s with
  | [] => None
  | c :: rest =>
      if N.eqb c d then Some 1%nat
      else if N.eqb c newline then None
      else option_map S (close_at d rest)
  end.

(** The first [re.sub] of [_process_sentence]: the leftmost
    non-overlapping matches of a starred or parenthesised span are
    deleted.  [skip] counts the characters of the current match that are
    still to be dropped. *)
Fixpoint strip_from (skip : nat) (s : str) : str :=
  match s with
  | [] => []
  | c :: rest =>
      match skip with
      | S k => strip_from k rest
      | O =>
          if N.eqb c star then
            match close_at star rest with
            | Some n => strip_from n rest
            | None => c :: strip_from 0 rest
            end
          else if N.eqb c lparen then
            match close_at rparen rest with
            | Some n => strip_from n rest
            | None => c :: strip_from 0 rest
            end
          else c :: strip_from 0 rest
      end
  end.

Definition sub_stage_directions (s : str) : str := strip_from 0 s.

(** The character class of the second [re.sub]: letters, digits, full
    stop, comma, question and exclamation marks, semicolon, colon, both
    quote characters, space and hyphen. *)
Definition speakable (c : char) : bool :=
  ((97 <=? c) && (c <=? 122) || (65 <=? c) && (c <=? 90)
   || (48 <=? c) && (c <=? 57)
   || (c =? 46) || (c =? 44) || (c =? 63) || (c =? 33)
   || (c =? 59) || (c =? 58) || (c =? 39) || (c =? 34)
   || (c =? 32) || (c =? 45))%N.

(** The second [re.sub]: every character outside the class is deleted. *)
Definition sub_unspeakable (s : str) : str := filter speakable s.

End Regex.

Export Regex.

(** ** Data model *)

(** Operations the class calls but does not define: the ASR model behind
    [asr_model.transcribe], Python's [str.lower] and
    [Levenshtein.distance].  [pcm] is the type of one audio sample. *)
Class Collaborators := {
  pcm : Type;
  transcribe : list pcm -> str;
  lower : str -> str;
  distance : str -> str -> Z
}.

Inductive role_t := system | user | assistant.

Definition role_eqb (a b : role_t) : bool :=
  match a, b with
  | system, system | user, user | assistant, assistant => true
  | _, _ => false
  end.

(** One entry of [self.messages]. *)
Record message := { role : role_t; content : str }.

(** What travels on [tts_queue]: a string ([_process_sentence] and the
    end-of-stream marker) or a list of tokens (the residual sentence of
    [process_LLM]). *)
Inductive tts_item :=
| Str (s : str)
| Toks (l : list str).

(** One decoded event record of the LLM stream. *)
Record line_record := { line_content : str; line_stop : bool }.

(** The options of [config.Config] that the modelled methods read. *)
Record Config := {
  BUFFER_SIZE : Z;
  VAD_SIZE : Z;
  PAUSE_LIMIT : Z;
  WAKE_WORD : option str;
  SIMILARITY_THRESHOLD : Z;
  STT_HALLUCINATIONS : list str;
  INITIAL_MESSAGES : list message;
  LLM_STOPWORDS : list str;
  AI_OUTPUT_TO_IGNORE : list str
}.

Definition EOS : str := py "<EOS>".
Definition INTERRUPTED : str := py "<INTERRUPTED>".
Definition space : str := py " ".

Definition terminators : list str :=
  [py "."; py "!"; py "?"; py ":"; py ";"; py "?!"].

Section Model.

Context {collab : Collaborators}.

Definition frame := list pcm.

(** The fields of [self].  [playing] is the state of the output device
    ([sd.play] / [sd.stop]); [input_stream_active] that of
    [self.input_stream]. *)
Record Glados := {
  conf : Config;
  samples : list frame;
  buffer : list frame;
  buffer_maxsize : Z;
  recording_started : bool;
  gap_counter : Z;
  wake_word : option str;
  messages : list message;
  llm_queue : list str;
  tts_queue : list tts_item;
  processing : bool;
  playing : bool;
  input_stream_active : bool
}.

Definition set_samples v (self : Glados) : Glados :=
  {| conf := conf self; samples := v; buffer := buffer self;
     buffer_maxsize := buffer_maxsize self;
     recording_started := recording_started self;
     gap_counter := gap_counter self; wake_word := wake_word self;
     messages := messages self; llm_queue := llm_queue self;
     tts_queue := tts_queue self; processing := processing self;
     playing := playing self;
     input_stream_active := input_stream_active self |}.

Definition set_buffer v (self : Glados) : Glados :=
  {| conf := conf self; samples := samples self; buffer := v;
     buffer_maxsize := buffer_maxsize self;
     recording_started := recording_started self;
     gap_counter := gap_counter self; wake_word := wake_word self;
     messages := messages self; llm_queue := llm_queue self;
     tts_queue := tts_queue self; processing := processing self;
     playing := playing self;
     input_stream_active := input_stream_active self |}.

Definition set_recording_started v (self : Glados) : Glados :=
  {| conf := conf self; samples := samples self; buffer := buffer self;
     buffer_maxsize := buffer_maxsize self;
     recording_started := v;
     gap_counter := gap_counter self; wake_word := wake_word self;
     messages := messages self; llm_queue := llm_queue self;
     tts_queue := tts_queue self; processing := processing self;
     playing := playing self;
     input_stream_active := input_stream_active self |}.

Definition set_gap_counter v (self : Glados) : Glados :=
  {| conf := conf self; samples := samples self; buffer := buffer self;
     buffer_maxsize := buffer_maxsize self;
     recording_started := recording_started self;
     gap_counter := v; wake_word := wake_word self;
     messages := messages self; llm_queue := llm_queue self;
     tts_queue := tts_queue self; processing := processing self;
     playing := playing self;
     input_stream_active := input_stream_active self |}.

Definition set_messages v (self : Glados) : Glados :=
  {| conf := conf self; samples := samples self; buffer := buffer self;
     buffer_maxsize := buffer_maxsize self;
     recording_started := recording_started self;
     gap_counter := gap_counter self; wake_word := wake_word self;
     messages := v; llm_queue := llm_queue self;
     tts_queue := tts_queue self; processing := processing self;
     playing := playing self;
     input_stream_active := input_stream_active self |}.

Definition set_llm_queue v (self : Glados) : Glados :=
  {| conf := conf self; samples := samples self; buffer := buffer self;
     buffer_maxsize := buffer_maxsize self;
     recording_started := recording_started self;
     gap_counter := gap_counter self; wake_word := wake_word self;
     messages := messages self; llm_queue := v;
     tts_queue := tts_queue self; processing := processing self;
     playing := playing self;
     input_stream_active := input_stream_active self |}.

Definition set_tts_queue v (self : Glados) : Glados :=
  {| conf := conf self; samples := samples self; buffer := buffer self;
     buffer_maxsize := buffer_maxsize self;
     recording_started := recording_started self;
     gap_counter := gap_counter self; wake_word := wake_word self;
     messages := messages self; llm_queue := llm_queue self;
     tts_queue := v; processing := processing self;
     playing := playing self;
     input_stream_active := input_stream_active self |}.

Definition set_processing v (self : Glados) : Glados :=
  {| conf := conf self; samples := samples self; buffer := buffer self;
     buffer_maxsize := buffer_maxsize self;
     recording_started := recording_started self;
     gap_counter := gap_counter self; wake_word := wake_word self;
     messages := messages self; llm_queue := llm_queue self;
     tts_queue := tts_queue self; processing := v;
     playing := playing self;
     input_stream_active := input_stream_active self |}.

Definition set_playing v (self : Glados) : Glados :=
  {| conf := conf self; samples := samples self; buffer := buffer self;
     buffer_maxsize := buffer_maxsize self;
     recording_started := recording_started self;
     gap_counter := gap_counter self; wake_word := wake_word self;
     messages := messages self; llm_queue := llm_queue self;
     tts_queue := tts_queue self; processing := processing self;
     playing := v;
     input_stream_active := input_stream_active self |}.

Definition set_input_stream_active v (self : Glados) : Glados :=
  {| conf := conf self; samples := samples self; buffer := buffer self;
     buffer_maxsize := buffer_maxsize self;
     recording_started := recording_started self;
     gap_counter := gap_counter self; wake_word := wake_word self;
     messages := messages self; llm_queue := llm_queue self;
     tts_queue := tts_queue self; processing := processing self;
     playing := playing self;
     input_stream_active := v |}.

(** [sd.stop()] and [sd.play(...)]. *)
Definition sd_stop (self : Glados) : Glados := set_playing false self.
Definition sd_play (self : Glados) : Glados := set_playing true self.

(** [Glados.__init__]: the state once the start announcement is
    playing.  The two workers are started with their own locals
    ([tts_start] below). *)
Definition init (c : Config) : result Glados :=
  maxsize <- floordiv (BUFFER_SIZE c) (VAD_SIZE c) ;;
  Ok {| conf := c; samples := []; buffer := [];
        buffer_maxsize := maxsize;
        recording_started := false; gap_counter := 0;
        wake_word := WAKE_WORD c;
        messages := INITIAL_MESSAGES c;
        llm_queue := []; tts_queue := [];
        processing := false; playing := true;
        input_stream_active := false |}.

(** [Glados.start]: the input stream is started. *)
Definition start (self : Glados) : Glados :=
  set_input_stream_active true self.

(** *** Assembler thread *)

(** [Glados.reset]. *)
Definition reset (self : Glados) : Glados :=
  set_buffer []
    (set_gap_counter 0
      (set_samples []
        (set_recording_started false self))).

(** [Glados.asr]: [np.concatenate] raises [ValueError] on an empty
    list of arrays. *)
Definition asr (samples : list frame) : result str :=
  match samples with
  | [] => Raise ValueError
  | _ => Ok (transcribe (concat samples))
  end.

(** [Glados._wakeword_detected]. *)
Definition _wakeword_detected (text : str) (self : Glados) : result bool :=
  let words := split text in
  distances <-
    comprehension
      (fun word =>
         match wake_word self with
         | Some w => Ok (distance (lower word) w)
         | None => Raise TypeError
         end)
      words ;;
  closest_distance <- py_min distances ;;
  Ok (closest_distance <? SIMILARITY_THRESHOLD (conf self)).

(** [self.llm_queue.put(detected_text); self.processing = True]. *)
Definition forward_to_llm (detected_text : str) (self : Glados) : Glados :=
  set_processing true
    (set_llm_queue (llm_queue self ++ [detected_text]) self).

(** [Glados._process_detected_audio]. *)
Definition _process_detected_audio (self : Glados) : result Glados :=
  let self := set_input_stream_active false self in
  detected_text <- asr (samples self) ;;
  let hallucination :=
    truthy detected_text
    && existsb
         (fun hallucination =>
            str_eqb (lower hallucination) (lower detected_text))
         (STT_HALLUCINATIONS (conf self)) in
  self <-
    (if truthy detected_text && negb hallucination then
       match wake_word self with
       | Some _ =>
           detected <- _wakeword_detected detected_text self ;;
           if detected then Ok (forward_to_llm detected_text self)
           else Ok self
       | None => Ok (forward_to_llm detected_text self)
       end
     else if hallucination then Ok (set_processing true self)
     else Ok (set_processing true self)) ;;
  let self := reset self in
  Ok (set_input_stream_active true self).

(** [Glados._manage_pre_activation_buffer]. *)
Definition _manage_pre_activation_buffer
    (sample : frame) (vad_confidence : bool) (self : Glados)
  : result Glados :=
  let self :=
    if full (buffer_maxsize self) (buffer self)
    then set_buffer (tl (buffer self)) self
    else self in
  queue <- put (buffer_maxsize self) sample (buffer self) ;;
  let self := set_buffer queue self in
  if vad_confidence then
    let self := sd_stop self in
    let self := set_processing false self in
    let self := set_samples (buffer self) self in
    Ok (set_recording_started true self)
  else Ok self.

(** [Glados._process_activated_audio]. *)
Definition _process_activated_audio
    (sample : frame) (vad_confidence : bool) (self : Glados)
  : result Glados :=
  let self := set_samples (samples self ++ [sample]) self in
  if negb vad_confidence then
    let self := set_gap_counter (gap_counter self + 1) self in
    limit <- floordiv (PAUSE_LIMIT (conf self)) (VAD_SIZE (conf self)) ;;
    if limit <=? gap_counter self
    then _process_detected_audio self
    else Ok self
  else Ok (set_gap_counter 0 self).

(** [Glados._handle_audio_sample]. *)
Definition _handle_audio_sample
    (sample : frame) (vad_confidence : bool) (self : Glados)
  : result Glados :=
  if negb (recording_started self)
  then _manage_pre_activation_buffer sample vad_confidence self
  else _process_activated_audio sample vad_confidence self.

(** *** Sentence cleanup and the LLM worker *)

(** The loop over [LLM_STOPWORDS] in [_process_sentence]. *)
Definition remove_stopwords (stopwords : list str) (sentence : str) : str :=
  fold_left removesuffix stopwords sentence.

(** The string transformation of [_process_sentence], from the joined
    sentence to the text handed to the queue. *)
Definition cleanup (stopwords : list str) (sentence : str) : str :=
  let sentence := remove_stopwords stopwords sentence in
  let sentence := sub_stage_directions sentence in
  let sentence := sub_unspeakable sentence in
  sentence ++ space.

(** [Glados._process_sentence].  On an entry of [AI_OUTPUT_TO_IGNORE] the
    method calls [logger.warn]; the logger is loguru's, which has [warning]
    and no [warn], so the attribute lookup raises [AttributeError]. *)
Definition _process_sentence (current_sentence : list str) (self : Glados)
  : result Glados :=
  let sentence := concat current_sentence in
  let sentence := cleanup (LLM_STOPWORDS (conf self)) sentence in
  if truthy sentence then
    if str_in sentence (AI_OUTPUT_TO_IGNORE (conf self))
    then Raise AttributeError
    else Ok (set_tts_queue (tts_queue self ++ [Str sentence]) self)
  else Ok self.

(** [Glados._process_line]. *)
Definition _process_line (line : line_record) : option str :=
  if negb (line_stop line) then Some (line_content line) else None.

(** The [for line in response.iter_lines()] loop of [process_LLM].
    Each element of [lines] pairs the value of [self.processing] read at
    that iteration with the line ([None] for an empty keep-alive line,
    otherwise what [_clean_raw_bytes] decodes).  [flush] is the action
    taken on a complete sentence, [_process_sentence] in [process_LLM].
    The result is the state the loop has reached and the way it ends:
    with the residual sentence, or with the exception of a flush, which
    leaves the state as it was before that flush. *)
Fixpoint iter_lines {S : Type} (flush : list str -> S -> result S)
    (lines : list (bool * option line_record))
    (sentence : list str) (st : S) : S * result (list str) :=
  match lines with
  | [] => (st, Ok sentence)
  | (processing_now, line) :: rest =>
      if negb processing_now then (st, Ok sentence)
      else
        match line with
        | None => iter_lines flush rest sentence st
        | Some line =>
            match _process_line line with
            | Some next_token =>
                if truthy next_token then
                  let sentence := sentence ++ [next_token] in
                  if str_in next_token terminators
                  then
                    match flush sentence st with
                    | Ok st' => iter_lines flush rest [] st'
                    | Raise e => (st, Raise e)
                    | Blocked => (st, Blocked)
                    end
                  else iter_lines flush rest sentence st
                else iter_lines flush rest sentence st
            | None => iter_lines flush rest sentence st
            end
        end
  end.

(** What [self.llama.request] yields: a connection error, a response
    that is not OK, or an OK response with its lines and the value of
    [self.processing] read after the loop. *)
Inductive response :=
| ConnectionError
| NotOK
| OK (lines : list (bool * option line_record)) (processing_after : bool).

(** One iteration of the [while] loop of [Glados.process_LLM]: the state
    the iteration leaves behind and the way it ends.  An exception of
    [_process_sentence] is caught by neither [except] clause and ends the
    worker. *)
Definition process_LLM (resp : response) (self : Glados)
  : Glados * result unit :=
  match llm_queue self with
  | [] => (self, Ok tt)
  | detected_text :: waiting =>
      let self := set_llm_queue waiting self in
      let self :=
        set_messages
          (messages self ++ [{| role := user; content := detected_text |}])
          self in
      match resp with
      | ConnectionError => (self, Ok tt)
      | NotOK => (self, Ok tt)
      | OK lines processing_after =>
          let '(self, outcome) :=
            iter_lines _process_sentence lines [] self in
          match outcome with
          | Ok sentence =>
              let self :=
                if processing_after && truthy sentence
                then set_tts_queue (tts_queue self ++ [Toks sentence]) self
                else self in
              (set_tts_queue (tts_queue self ++ [Str EOS]) self, Ok tt)
          | Raise e => (self, Raise e)
          | Blocked => (self, Blocked)
          end
      end
  end.

(** *** TTS worker *)

(** [Glados.clip_interrupted_sentence].  The number of words is the
    exact value of [percentage_played * len(tokens) / 100], rounded half to
    even; Python rounds the floating-point product instead, which is the
    same number when the percentage is 100, the product being exact there,
    and may be one word off elsewhere. *)
Definition clip_interrupted_sentence
    (generated_text : str) (percentage_played : Z) : str :=
  let tokens := split generated_text in
  let words_to_print :=
    round_div (percentage_played * Z.of_nat (length tokens)) 100 in
  let text := join space (slice_to words_to_print tokens) in
  if words_to_print <? Z.of_nat (length tokens)
  then text ++ INTERRUPTED
  else text.

(** What the playback monitor observes: the value of [self.processing]
    at each poll made while the stream is active, and
    [int(played_samples / total_samples * 100)]. *)
Record playback := { polls : list bool; elapsed_percent : Z }.

(** [Glados.percentage_played]. *)
Definition percentage_played (pb : playback) (self : Glados)
  : Glados * (bool * Z) :=
  let interrupted := existsb negb (polls pb) in
  let self :=
    if interrupted then set_tts_queue [] (sd_stop self)
    else set_playing false self in
  (self, (interrupted, Z.min (elapsed_percent pb) 100)).

(** Local variables of [process_TTS_thread]. *)
Record tts_locals := {
  assistant_text : list tts_item;
  system_text : list tts_item;
  finished : bool;
  interrupted : bool
}.

Definition tts_start : tts_locals :=
  {| assistant_text := []; system_text := [];
     finished := false; interrupted := false |}.

(** What one iteration of the TTS worker gets from outside:
    [len(audio)] of the synthesised clip and the playback
    observations. *)
Record tts_env := { total_samples : nat; monitor : playback }.

(** The strings a queue item yields when iterated, as [str.join] does. *)
Definition elements (item : tts_item) : list str :=
  match item with
  | Str s => List.map (fun c => [c]) s
  | Toks l => l
  end.

Definition is_EOS (item : tts_item) : bool :=
  match item with
  | Str s => str_eqb s EOS
  | Toks _ => false
  end.

Definition item_truthy (item : tts_item) : bool :=
  match item with
  | Str s => truthy s
  | Toks l => truthy l
  end.

(** The call of [clip_interrupted_sentence] in the worker: a list has
    no [split]. *)
Definition clip_item (item : tts_item) (percentage : Z) : result str :=
  match item with
  | Str s => Ok (clip_interrupted_sentence s percentage)
  | Toks _ => Raise AttributeError
  end.

(** One iteration of the [while] loop of [Glados.process_TTS_thread];
    an empty queue is the [queue.Empty] branch. *)
Definition process_TTS_thread (env : tts_env)
    (st : Glados * tts_locals) : result (Glados * tts_locals) :=
  let '(self, loc) := st in
  match tts_queue self with
  | [] => Ok (self, loc)
  | generated_text :: waiting =>
      let self := set_tts_queue waiting self in
      st <-
        (if is_EOS generated_text then
           Ok (self,
               {| assistant_text := assistant_text loc;
                  system_text := system_text loc;
                  finished := true;
                  interrupted := interrupted loc |})
         else if negb (item_truthy generated_text) then Ok (self, loc)
         else if (0 <? total_samples env)%nat then
           let self := sd_play self in
           let '(self, (was_interrupted, percentage)) :=
             percentage_played (monitor env) self in
           if was_interrupted then
             clipped_text <- clip_item generated_text percentage ;;
             Ok (self,
                 {| assistant_text := assistant_text loc ++ [generated_text];
                    system_text := assistant_text loc ++ [Str clipped_text];
                    finished := true;
                    interrupted := true |})
           else
             Ok (self,
                 {| assistant_text := assistant_text loc ++ [generated_text];
                    system_text := system_text loc;
                    finished := finished loc;
                    interrupted := false |})
         else Ok (self, loc)) ;;
      let '(self, loc) := st in
      if finished loc then
        selected <- first (assistant_text loc) ;;
        let self :=
          set_messages
            (messages self
             ++ [{| role := assistant;
                    content := join space (elements selected) |}])
            self in
        Ok (self,
            {| assistant_text := [];
               system_text := system_text loc;
               finished := false;
               interrupted := false |})
      else Ok (self, loc)
  end.

(** *** Runs of the pipeline *)

(** The TTS worker iterates until its queue is empty; [env k] is what
    the [k]-th iteration observes. *)
Fixpoint TTS_iterations (fuel : nat) (env : nat -> tts_env) (k : nat)
    (st : Glados * tts_locals) : result (Glados * tts_locals) :=
  match fuel with
  | O => Ok st
  | S fuel' =>
      match tts_queue (fst st) with
      | [] => Ok st
      | _ =>
          st' <- process_TTS_thread (env k) st ;;
          TTS_iterations fuel' env (S k) st'
      end
  end.

Definition TTS_drain (env : nat -> tts_env) (st : Glados * tts_locals)
  : result (Glados * tts_locals) :=
  TTS_iterations (length (tts_queue (fst st))) env 0%nat st.

(** One conversational turn run to completion: the assembler forwards
    an accepted transcript, the LLM worker serves it, the TTS worker
    empties its queue. *)
Record turn := {
  turn_text : str;
  turn_response : response;
  turn_tts : nat -> tts_env
}.

Definition run_turn (t : turn) (st : Glados * tts_locals)
  : result (Glados * tts_locals) :=
  let '(self, loc) := st in
  let self := forward_to_llm (turn_text t) self in
  let '(self, outcome) := process_LLM (turn_response t) self in
  _ <- outcome ;;
  TTS_drain (turn_tts t) (self, loc).

Fixpoint run_turns (ts : list turn) (st : Glados * tts_locals)
  : result (Glados * tts_locals) :=
  match ts with
  | [] => Ok st
  | t :: rest => st' <- run_turn t st ;; run_turns rest st'
  end.

(** The roles of the entries of [self.messages] that follow the seed. *)
Definition roles_after_seed (self : Glados) : list role_t :=
  List.map role
    (skipn (length (INITIAL_MESSAGES (conf self))) (messages self)).

(** The role that follows [r] in a strict alternation. *)
Definition other_turn (r : role_t) : role_t :=
  match r with user => assistant | _ => user end.

(** [user, assistant, user, assistant, ...]: [expected] is the role the
    next entry must have. *)
Fixpoint alternates_from (expected : role_t) (l : list role_t) : bool :=
  match l with
  | [] => true
  | r :: rest =>
      role_eqb r expected && alternates_from (other_turn expected) rest
  end.

Definition alternates (l : list role_t) : bool := alternates_from user l.

(** *** Vocabulary of the specification *)

(** The state [_process_detected_audio] returns once the branch on the
    transcript has produced [self']: the recorder is reset and the input
    stream restarted. *)
Definition listening_again (self' : Glados) : Glados :=
  set_input_stream_active true (reset self').

(** The transcript equals, ignoring case, some entry of
    [STT_HALLUCINATIONS]. *)
Definition matches_hallucination (self : Glados) (text : str) : bool :=
  existsb (fun entry => str_eqb (lower entry) (lower text))
    (STT_HALLUCINATIONS (conf self)).

(** The distances from the lower-cased tokens of a transcript to the wake
    word. *)
Definition token_distances (w text : str) : list Z :=
  List.map (fun t => distance (lower t) w) (split text).

(** [m] is the minimum of the list [l]. *)
Definition is_min (m : Z) (l : list Z) : Prop :=
  In m l /\ forall x, In x l -> m <= x.

(** The [content] fields of the records with [stop == false], in stream
    order. *)
Fixpoint nonstop_contents (lines : list (bool * option line_record))
  : list str :=
  match lines with
  | [] => []
  | (_, Some line) :: rest =>
      if line_stop line then nonstop_contents rest
      else line_content line :: nonstop_contents rest
  | (_, None) :: rest => nonstop_contents rest
  end.

(** A flush action that only records the sentence it is given, as the
    concatenation of its tokens, before any cleanup; it never raises. *)
Definition record_flush (sentence : list str) (log : list str)
  : result (list str) :=
  Ok (log ++ [concat sentence]).

(** The sentences the loop hands to its flush action while a stream is
    consumed, before cleanup, when no flush raises. *)
Definition flushed_sentences (lines : list (bool * option line_record))
  : list str :=
  fst (iter_lines record_flush lines [] []).

(** The sentence cleans to an entry of [AI_OUTPUT_TO_IGNORE], on which
    [_process_sentence] raises. *)
Definition on_ignore_list (c : Config) (sentence : str) : bool :=
  str_in (cleanup (LLM_STOPWORDS c) sentence) (AI_OUTPUT_TO_IGNORE c).

(** What [_process_sentence] puts on the TTS queue for a sentence that is
    not on the ignore list. *)
Definition enqueued (c : Config) (sentence : str) : tts_item :=
  Str (cleanup (LLM_STOPWORDS c) sentence).

(** [_process_sentence] together with a record of the sentences it has
    put on the queue, each as the concatenation of its tokens. *)
Definition traced_flush (sentence : list str) (st : list str * Glados)
  : result (list str * Glados) :=
  self' <- _process_sentence sentence (snd st) ;;
  Ok (fst st ++ [concat sentence], self').

(** The sentences of [sentences] that come before the first one on the
    ignore list, and whether there is such a one. *)
Fixpoint until_ignored (c : Config) (sentences : list str)
  : list str * bool :=
  match sentences with
  | [] => ([], false)
  | sentence :: rest =>
      if on_ignore_list c sentence then ([], true)
      else
        let '(before, hit) := until_ignored c rest in
        (sentence :: before, hit)
  end.

Definition is_OK (r : response) : bool :=
  match r with OK _ _ => true | _ => false end.

(** The pipeline between two turns: both queues are empty, the TTS worker
    holds no finished turn, and the entries after the seed are complete
    user/assistant pairs. *)
Definition settled (st : Glados * tts_locals) : Prop :=
  llm_queue (fst st) = []
  /\ tts_queue (fst st) = []
  /\ finished (snd st) = false
  /\ exists extra,
       messages (fst st) = INITIAL_MESSAGES (conf (fst st)) ++ extra
       /\ alternates (List.map role extra) = true
       /\ Nat.even (length extra) = true.

(** *** The listening loop *)

(** [Glados._listen_and_respond]: the body of the loop applied to the
    pairs taken from [sample_queue], in the order they are taken. *)
Fixpoint _listen_and_respond (queue : list (frame * bool)) (self : Glados)
  : result Glados :=
  match queue with
  | [] => Ok self
  | (sample, vad_confidence) :: rest =>
      self' <- _handle_audio_sample sample vad_confidence self ;;
      _listen_and_respond rest self'
  end.

(** The frames a queue of bound [maxsize] retains of [l] when the oldest
    is evicted on each insertion into a full queue. *)
Definition most_recent {A} (maxsize : Z) (l : list A) : list A :=
  if 0 <? maxsize then skipn (length l - Z.to_nat maxsize) l else l.

(** Every run of unvoiced frames in [inputs] stays below [limit], the gap
    counter being [gap] at the start. *)
Fixpoint gaps_below (limit gap : Z) (inputs : list (frame * bool)) : bool :=
  match inputs with
  | [] => true
  | (_, true) :: rest => gaps_below limit 0 rest
  | (_, false) :: rest =>
      (gap + 1 <? limit) && gaps_below limit (gap + 1) rest
  end.

(** The number of unvoiced frames at the end of [inputs], counted from
    [gap]. *)
Fixpoint gap_after (gap : Z) (inputs : list (frame * bool)) : Z :=
  match inputs with
  | [] => gap
  | (_, true) :: rest => gap_after 0 rest
  | (_, false) :: rest => gap_after (gap + 1) rest
  end.

(** What the assembler leaves alone: configuration, wake word, message
    log, TTS queue and the bound of the pre-roll queue; the LLM queue only
    grows, at its end. *)
Definition assembler_frame (self self' : Glados) : Prop :=
  conf self' = conf self
  /\ wake_word self' = wake_word self
  /\ buffer_maxsize self' = buffer_maxsize self
  /\ messages self' = messages self
  /\ tts_queue self' = tts_queue self
  /\ exists added, llm_queue self' = llm_queue self ++ added.

(** What the TTS worker leaves alone: everything the assembler and the
    LLM worker own; the message log only grows, by assistant turns. *)
Definition tts_frame (self self' : Glados) : Prop :=
  conf self' = conf self
  /\ wake_word self' = wake_word self
  /\ llm_queue self' = llm_queue self
  /\ samples self' = samples self
  /\ buffer self' = buffer self
  /\ recording_started self' = recording_started self
  /\ gap_counter self' = gap_counter self
  /\ processing self' = processing self
  /\ input_stream_active self' = input_stream_active self
  /\ exists turns,
       messages self' = messages self ++ turns
       /\ Forall (fun m => role m = assistant) turns.

(** Lines of the stream that contribute no token: keep-alive lines, stop
    records and records with empty content. *)
Definition contributes_nothing (line : option line_record) : bool :=
  match line with
  | None => true
  | Some r => line_stop r || negb (truthy (line_content r))
  end.

End Model.

(** ** A concrete instance, for running the model *)

Module Demo.

(** [str.lower] on ASCII letters. *)
Definition ascii_lower (s : str) : str :=
  List.map (fun c => if ((65 <=? c) && (c <=? 90))%N then (c + 32)%N else c) s.

(** One row of the edit-distance table: [prev] is the previous row from
    column [j - 1] on, [left] the entry just computed. *)
Fixpoint lev_row (a : char) (t : str) (prev : list Z) (left : Z) : list Z :=
  match t, prev with
  | c :: t', diag :: ((up :: _) as prev') =>
      let v :=
        Z.min (Z.min (up + 1) (left + 1))
              (diag + (if N.eqb a c then 0 else 1)) in
      v :: lev_row a t' prev' v
  | _, _ => []
  end.

Definition lev_step (t : str) (prev : list Z) (a : char) : list Z :=
  match prev with
  | d0 :: _ => (d0 + 1) :: lev_row a t prev (d0 + 1)
  | [] => []
  end.

(** The Levenshtein distance of two strings. *)
Definition levenshtein (s t : str) : Z :=
  last (fold_left (lev_step t) s
          (List.map Z.of_nat (seq 0 (S (length t))))) 0.

(** The ASR stand-in reads each sample as one code point. *)
Definition collaborators : Collaborators :=
  {| pcm := N;
     transcribe := fun audio => audio;
     lower := ascii_lower;
     distance := levenshtein |}.

Definition config : Config :=
  {| BUFFER_SIZE := 96; VAD_SIZE := 32; PAUSE_LIMIT := 64;
     WAKE_WORD := Some (py "glados"); SIMILARITY_THRESHOLD := 3;
     STT_HALLUCINATIONS := [py "thanks for watching!"; py "glados."];
     INITIAL_MESSAGES :=
       [{| role := system; content := py "You are GLaDOS." |}];
     LLM_STOPWORDS := [py "<|eot_id|>"];
     AI_OUTPUT_TO_IGNORE := [py "  "] |}.

(** A frame whose samples spell a text. *)
Definition fr (s : str) : frame (collab := collaborators) := s.

(** Frames whose samples spell a text. *)
Definition frames (l : list str) : list (frame (collab := collaborators)) := l.

(** The state [init config] returns. *)
Definition fresh : Glados (collab := collaborators) :=
  {| conf := config; samples := []; buffer := [];
     buffer_maxsize := 3;
     recording_started := false; gap_counter := 0;
     wake_word := Some (py "glados");
     messages := INITIAL_MESSAGES config;
     llm_queue := []; tts_queue := [];
     processing := false; playing := true;
     input_stream_active := false |}.

(** A listening state whose pre-roll buffer is full while the assistant
    is speaking. *)
Definition speaking : Glados (collab := collaborators) :=
  set_processing true
    (set_buffer (frames [py "a"; py "b"; py "c"]) (start fresh)).

(** A recording state holding the frames [heard]. *)
Definition recorded (heard : list str) : Glados (collab := collaborators) :=
  set_recording_started true (set_samples (frames heard) (start fresh)).

(** A non-stop event record read while [processing] is true. *)
Definition tok (content : string) : bool * option line_record :=
  (true, Some {| line_content := py content; line_stop := false |}).

(** The closing record of a stream. *)
Definition stop_record : bool * option line_record :=
  (true, Some {| line_content := py ""; line_stop := true |}).

(** A stream of two sentences, with a keep-alive line in between. *)
Definition stream : list (bool * option line_record) :=
  [tok "He"; tok "llo"; tok "*whispers*"; tok "(aside)"; tok ".";
   (true, None);
   tok "How"; tok " are"; tok " you"; tok "?"; stop_record].

(** A stream that ends in the middle of a sentence. *)
Definition unfinished_stream : list (bool * option line_record) :=
  [tok "Hi"; tok "."; tok "Bye"; stop_record].

(** The state once the transcript [text] has been accepted. *)
Definition asked (text : str) : Glados (collab := collaborators) :=
  forward_to_llm text (start fresh).

(** A clip played to its end, and one cut short by the user. *)
Definition played : tts_env :=
  {| total_samples := 800;
     monitor := {| polls := [true; true]; elapsed_percent := 104 |} |}.

Definition barged_in : tts_env :=
  {| total_samples := 800;
     monitor := {| polls := [true; false]; elapsed_percent := 50 |} |}.

(** The state in which the TTS worker finds two sentences and the
    end-of-stream marker on its queue. *)
Definition two_sentences : Glados (collab := collaborators) :=
  set_tts_queue [Str (py "Hello. "); Str (py "How are you? "); Str EOS]
    (set_messages
       (INITIAL_MESSAGES config
        ++ [{| role := user; content := py "glados hello" |}])
       (start fresh)).

(** Turns of a conversation. *)
Definition answered_turn : turn :=
  {| turn_text := py "glados hello";
     turn_response := OK stream true;
     turn_tts := fun _ => played |}.

Definition interrupted_turn : turn :=
  {| turn_text := py "glados stop";
     turn_response := OK stream true;
     turn_tts := fun _ => barged_in |}.

Definition failed_turn (text : str) : turn :=
  {| turn_text := text;
     turn_response := NotOK;
     turn_tts := fun _ => played |}.

Definition unreachable_turn (text : str) : turn :=
  {| turn_text := text;
     turn_response := ConnectionError;
     turn_tts := fun _ => played |}.

(** A frame without speech, and inputs of the listening loop. *)
Definition quiet : frame (collab := collaborators) * bool := (fr [], false).

Definition voiced (text : string) : frame (collab := collaborators) * bool :=
  (fr (py text), true).

Definition unvoiced (text : string) : frame (collab := collaborators) * bool :=
  (fr (py text), false).

(** Someone says the wake word and a greeting, then falls silent. *)
Definition spoken_request : list (frame (collab := collaborators) * bool) :=
  [quiet; voiced "glados"; unvoiced " "; voiced "hello"; quiet; quiet].

(** A recording state of an assistant configured without a wake word. *)
Definition open_mic (heard : list str) : Glados (collab := collaborators) :=
  let s := recorded heard in
  {| conf := conf s; samples := samples s; buffer := buffer s;
     buffer_maxsize := buffer_maxsize s;
     recording_started := recording_started s;
     gap_counter := gap_counter s; wake_word := None;
     messages := messages s; llm_queue := llm_queue s;
     tts_queue := tts_queue s; processing := processing s;
     playing := playing s;
     input_stream_active := input_stream_active s |}.

(** A turn during whose request the user has already spoken again. *)
Definition cut_short_turn : turn :=
  {| turn_text := py "glados stop";
     turn_response := OK ((false, None) :: stream) true;
     turn_tts := fun _ => played |}.

(** A configuration whose ignore list holds a sentence the assistant
    may say, and the state once a transcript has been accepted under it. *)
Definition picky_config : Config :=
  {| BUFFER_SIZE := 96; VAD_SIZE := 32; PAUSE_LIMIT := 64;
     WAKE_WORD := Some (py "glados"); SIMILARITY_THRESHOLD := 3;
     STT_HALLUCINATIONS := [py "thanks for watching!"];
     INITIAL_MESSAGES :=
       [{| role := system; content := py "You are GLaDOS." |}];
     LLM_STOPWORDS := [py "<|eot_id|>"];
     AI_OUTPUT_TO_IGNORE := [py "Bye. "] |}.

Definition picky_asked : Glados (collab := collaborators) :=
  {| conf := picky_config; samples := []; buffer := [];
     buffer_maxsize := 3;
     recording_started := false; gap_counter := 0;
     wake_word := Some (py "glados");
     messages := INITIAL_MESSAGES picky_config;
     llm_queue := [py "glados hello"]; tts_queue := [];
     processing := true; playing := false;
     input_stream_active := true |}.

(** A stream of three short sentences. *)
Definition three_sentences : list (bool * option line_record) :=
  [tok "Hi"; tok "."; tok "Bye"; tok "."; tok "Wait"; tok "!"; stop_record].

End Demo.

Example levenshtein_ex :
  (Demo.levenshtein (py "gladoss") (py "glados"),
   Demo.levenshtein (py "kitten") (py "sitting"),
   Demo.levenshtein (py "") (py "abc")) = (1, 3, 3).
Proof. vm_compute. reflexivity. Qed.

Example init_ex : init (collab := Demo.collaborators) Demo.config = Ok Demo.fresh.
Proof. vm_compute. reflexivity. Qed.

Example strip_ex1 :
  sub_stage_directions (py "Hello*whispers*(aside).") = py "Hello.".
Proof. vm_compute. reflexivity. Qed.

Example strip_ex2 :
  sub_stage_directions (py "*a(b)c") = py "*ac".
Proof. vm_compute. reflexivity. Qed.

Example split_ex1 : split (py "  How are  you? ") = [py "How"; py "are"; py "you?"].
Proof. vm_compute. reflexivity. Qed.

Example round_ex : (round_div 5 2, round_div 7 2, round_div 1 3) = (2, 4, 0).
Proof. vm_compute. reflexivity. Qed.

(** ** Properties of the assembler thread *)

Section Assembler.

Context {collab : Collaborators}.

(** After the eviction of [_manage_pre_activation_buffer] a queue that
    respects its bound has room for one more frame. *)
Lemma put_after_eviction (maxsize : Z) (q : list frame) (x : frame) :
  (0 < maxsize -> Z.of_nat (length q) <= maxsize) ->
  put maxsize x (if full maxsize q then tl q else q)
  = Ok ((if full maxsize q then tl q else q) ++ [x]).
Proof.
  intros Hbound. unfold put.
  destruct (full maxsize q) eqn:Hfull.
  - unfold full in Hfull. apply andb_prop in Hfull as [Hpos Hge].
    apply Z.ltb_lt in Hpos. apply Z.leb_le in Hge.
    specialize (Hbound Hpos).
    destruct q as [|y q']; simpl in *; [lia|].
    unfold full.
    replace (maxsize <=? Z.of_nat (length q')) with false.
    + now rewrite andb_false_r.
    + symmetry. apply Z.leb_gt. lia.
  - now rewrite Hfull.
Qed.

(** [_process_detected_audio] returns with an empty pre-roll buffer. *)
Lemma _process_detected_audio_buffer (self self' : Glados) :
  _process_detected_audio self = Ok self' ->
  buffer self' = [] /\ buffer_maxsize self' = buffer_maxsize self.
Proof.
  unfold _process_detected_audio.
  destruct (asr _) as [detected_text| |]; cbn [bind]; try discriminate.
  destruct (truthy detected_text && negb _).
  - destruct (wake_word _).
    + destruct (_wakeword_detected _ _) as [[|]| |]; cbn [bind];
        try discriminate; intros H; injection H as <-; split; reflexivity.
    + cbn [bind]. intros H; injection H as <-; split; reflexivity.
  - destruct (truthy detected_text && _); cbn [bind];
      intros H; injection H as <-; split; reflexivity.
Qed.

(** The bound of the pre-roll queue is an invariant of the assembler:
    handling a sample never leaves more frames in the buffer than the
    queue admits. *)
Lemma buffer_bound_preserved
    (self self' : Glados) (sample : frame) (vad_confidence : bool) :
  (0 < buffer_maxsize self ->
   Z.of_nat (length (buffer self)) <= buffer_maxsize self) ->
  _handle_audio_sample sample vad_confidence self = Ok self' ->
  0 < buffer_maxsize self' ->
  Z.of_nat (length (buffer self')) <= buffer_maxsize self'.
Proof.
  intros Hbound. unfold _handle_audio_sample.
  destruct (recording_started self); cbn [negb].
  - unfold _process_activated_audio.
    destruct vad_confidence; cbn [negb].
    + intros H. injection H as <-. exact Hbound.
    + destruct (floordiv _ _) as [limit| |]; cbn [bind]; try discriminate.
      destruct (limit <=? _).
      * intros H. apply _process_detected_audio_buffer in H as [-> _].
        cbn. lia.
      * intros H. injection H as <-. exact Hbound.
  - unfold _manage_pre_activation_buffer.
    pose proof (put_after_eviction (buffer_maxsize self) (buffer self)
                  sample Hbound) as Hput.
    assert (Hlen : 0 < buffer_maxsize self ->
                   Z.of_nat (length
                     ((if full (buffer_maxsize self) (buffer self)
                       then tl (buffer self) else buffer self) ++ [sample]))
                   <= buffer_maxsize self).
    { intros Hpos. specialize (Hbound Hpos). rewrite length_app. cbn [length].
      unfold full. destruct (buffer self) as [|x q]; cbn [tl length] in *.
      - rewrite andb_comm. destruct (0 <? buffer_maxsize self) eqn:Hp.
        + destruct (buffer_maxsize self <=? _); cbn; lia.
        + apply Z.ltb_ge in Hp. lia.
      - destruct (0 <? buffer_maxsize self) eqn:Hp; cbn [andb].
        + destruct (buffer_maxsize self <=? Z.of_nat (S (length q))) eqn:Hfull.
          * lia.
          * apply Z.leb_gt in Hfull. cbn [length]. lia.
        + apply Z.ltb_ge in Hp. lia. }
    destruct (full (buffer_maxsize self) (buffer self)); cbn in Hput |- *;
      rewrite Hput; cbn [bind]; destruct vad_confidence;
      intros H; injection H as <-; exact Hlen.
Qed.

Lemma init_buffer_bound (c : Config) (self : Glados) :
  init c = Ok self ->
  0 < buffer_maxsize self ->
  Z.of_nat (length (buffer self)) <= buffer_maxsize self.
Proof.
  unfold init. destruct (floordiv _ _); cbn [bind]; try discriminate.
  intros H. injection H as <-. cbn. lia.
Qed.

(** C1. A voiced frame handled before activation (recording not yet
    started) stops playback, clears [processing], makes the sample list
    a copy of the pre-roll buffer (which by then holds this frame, the
    oldest one having been evicted if the buffer was full) and starts
    recording.  The buffer is assumed to respect the bound of its
    queue. *)
Theorem voiced_frame_starts_recording
    (self : Glados) (sample : frame) :
  recording_started self = false ->
  (0 < buffer_maxsize self ->
   Z.of_nat (length (buffer self)) <= buffer_maxsize self) ->
  exists self',
    _handle_audio_sample sample true self = Ok self'
    /\ playing self' = false
    /\ processing self' = false
    /\ buffer self'
       = (if full (buffer_maxsize self) (buffer self)
          then tl (buffer self) else buffer self) ++ [sample]
    /\ samples self' = buffer self'
    /\ recording_started self' = true.
Proof.
  intros Hpre Hbound.
  unfold _handle_audio_sample, _manage_pre_activation_buffer.
  rewrite Hpre. cbn [negb].
  pose proof (put_after_eviction (buffer_maxsize self) (buffer self)
                sample Hbound) as Hput.
  destruct (full (buffer_maxsize self) (buffer self)); cbn in Hput |- *;
    rewrite Hput; cbn; eexists; repeat split; reflexivity.
Qed.

End Assembler.

Lemma voiced_frame_starts_recording_witness :
  exists self',
    _handle_audio_sample (Demo.fr (py "d")) true Demo.speaking = Ok self'
    /\ playing self' = false
    /\ processing self' = false
    /\ buffer self' = Demo.frames [py "b"; py "c"; py "d"]
    /\ samples self' = buffer self'
    /\ recording_started self' = true.
Proof.
  apply (voiced_frame_starts_recording (collab := Demo.collaborators)
           Demo.speaking (Demo.fr (py "d"))).
  - reflexivity.
  - vm_compute. intros _ H. discriminate H.
Defined.


(** ** Transcript filtering: hallucinations and the wake word *)

Section Gating.

Context {collab : Collaborators}.

Lemma fold_min_le_init (l : list Z) (x : Z) :
  fold_left Z.min l x <= x.
Proof.
  revert x. induction l as [|z l IH]; intros x; simpl; [lia|].
  specialize (IH (Z.min x z)). lia.
Qed.

Lemma fold_min_le (l : list Z) (x y : Z) :
  In y (x :: l) -> fold_left Z.min l x <= y.
Proof.
  intros [->|Hin]; [apply fold_min_le_init|].
  revert x. induction l as [|z l IH]; intros x; simpl in *; [contradiction|].
  destruct Hin as [->|Hin].
  - pose proof (fold_min_le_init l (Z.min x y)). lia.
  - now apply IH.
Qed.

Lemma fold_min_in (l : list Z) (x : Z) :
  In (fold_left Z.min l x) (x :: l).
Proof.
  revert x. induction l as [|z l IH]; intros x; simpl.
  - now left.
  - destruct (IH (Z.min x z)) as [H|H].
    + rewrite <- H. destruct (Z.min_spec x z) as [[_ ->]|[_ ->]]; auto.
    + auto.
Qed.

(** [min] returns the minimum of a non-empty list. *)
Lemma py_min_spec (l : list Z) :
  l <> [] -> exists m, py_min l = Ok m /\ is_min m l.
Proof.
  destruct l as [|x l]; [congruence|]. intros _.
  exists (fold_left Z.min l x). split; [reflexivity|]. split.
  - apply fold_min_in.
  - intros y Hy. now apply fold_min_le.
Qed.

Lemma comprehension_total {A B} (f : A -> B) (l : list A) :
  comprehension (fun x => Ok (f x)) l = Ok (List.map f l).
Proof.
  induction l as [|x l IH]; simpl; [reflexivity|]. now rewrite IH.
Qed.

(** With a wake word configured, the check computes the token
    distances and takes their minimum. *)
Lemma _wakeword_detected_eq (self : Glados) (w text : str) :
  wake_word self = Some w ->
  _wakeword_detected text self
  = (closest_distance <- py_min (token_distances w text) ;;
     Ok (closest_distance <? SIMILARITY_THRESHOLD (conf self))).
Proof.
  intros Hw. unfold _wakeword_detected, token_distances. rewrite Hw.
  now rewrite comprehension_total.
Qed.

(** The hallucination branch of [_process_detected_audio]. *)
Lemma _process_detected_audio_hallucination (self : Glados) (text : str) :
  asr (samples self) = Ok text ->
  truthy text = true ->
  matches_hallucination self text = true ->
  _process_detected_audio self
  = Ok (listening_again
          (set_processing true (set_input_stream_active false self))).
Proof.
  intros Hasr Htext Hhall. unfold _process_detected_audio.
  change (samples (set_input_stream_active false self)) with (samples self).
  rewrite Hasr. cbn [bind]. rewrite Htext.
  change (conf (set_input_stream_active false self)) with (conf self).
  unfold matches_hallucination in Hhall. rewrite Hhall. reflexivity.
Qed.

(** The wake-word branch of [_process_detected_audio]. *)
Lemma _process_detected_audio_gated (self : Glados) (w text : str) :
  wake_word self = Some w ->
  asr (samples self) = Ok text ->
  truthy text = true ->
  matches_hallucination self text = false ->
  _process_detected_audio self
  = (detected <- _wakeword_detected text self ;;
     Ok (listening_again
           (if detected
            then forward_to_llm text (set_input_stream_active false self)
            else set_input_stream_active false self))).
Proof.
  intros Hw Hasr Htext Hhall. unfold _process_detected_audio.
  change (samples (set_input_stream_active false self)) with (samples self).
  rewrite Hasr. cbn [bind]. rewrite Htext.
  change (conf (set_input_stream_active false self)) with (conf self).
  change (wake_word (set_input_stream_active false self))
    with (wake_word self).
  unfold matches_hallucination in Hhall. rewrite Hhall, Hw.
  cbn [andb negb].
  change (_wakeword_detected text (set_input_stream_active false self))
    with (_wakeword_detected text self).
  destruct (_wakeword_detected text self) as [[|]| |]; reflexivity.
Qed.

(** C10. With a wake word configured, [_wakeword_detected] returns a
    boolean exactly for the transcripts that have at least one token.  For
    a transcript with none (such as a non-empty one made of whitespace
    only) it raises [ValueError], and that exception leaves
    [_process_detected_audio] when such a transcript is neither empty nor a
    hallucination. *)
Theorem wakeword_check_needs_a_token (self : Glados) (w text : str) :
  wake_word self = Some w ->
  (split text = [] -> _wakeword_detected text self = Raise ValueError)
  /\ (split text <> [] -> exists b, _wakeword_detected text self = Ok b)
  /\ (split text = [] ->
      asr (samples self) = Ok text ->
      truthy text = true ->
      matches_hallucination self text = false ->
      _process_detected_audio self = Raise ValueError).
Proof.
  intros Hw. repeat split.
  - intros Hsplit. rewrite (_wakeword_detected_eq self w text Hw).
    unfold token_distances. now rewrite Hsplit.
  - intros Hsplit. rewrite (_wakeword_detected_eq self w text Hw).
    destruct (py_min_spec (token_distances w text)) as [m [Hm _]].
    + unfold token_distances. destruct (split text); [congruence|discriminate].
    + rewrite Hm. cbn. eauto.
  - intros Hsplit Hasr Htext Hhall.
    rewrite (_process_detected_audio_gated self w text Hw Hasr Htext Hhall).
    unfold _wakeword_detected. rewrite Hsplit. reflexivity.
Qed.

(** C9. A non-empty transcript that equals, ignoring case, an entry of
    [STT_HALLUCINATIONS] is dropped: nothing is put on the LLM queue, the
    message log is unchanged, the recorder is reset (not recording, no
    samples, gap counter zero, pre-roll buffer empty) and the input stream
    is running again. *)
Theorem hallucination_is_dropped (self : Glados) (text : str) :
  asr (samples self) = Ok text ->
  truthy text = true ->
  matches_hallucination self text = true ->
  exists self',
    _process_detected_audio self = Ok self'
    /\ llm_queue self' = llm_queue self
    /\ messages self' = messages self
    /\ recording_started self' = false
    /\ samples self' = []
    /\ gap_counter self' = 0
    /\ buffer self' = []
    /\ input_stream_active self' = true.
Proof.
  intros Hasr Htext Hhall.
  rewrite (_process_detected_audio_hallucination self text Hasr Htext Hhall).
  eexists. split; [reflexivity|]. repeat split.
Qed.

(** C7, amended. With a wake word configured, a non-empty transcript that
    is not a hallucination and has at least one token is put on the LLM
    queue when the minimum distance from its lower-cased tokens to the wake
    word is below [SIMILARITY_THRESHOLD], and the LLM queue is left as it
    was otherwise. *)
Theorem wake_word_gate (self : Glados) (w text : str) :
  wake_word self = Some w ->
  asr (samples self) = Ok text ->
  truthy text = true ->
  matches_hallucination self text = false ->
  split text <> [] ->
  exists m self',
    is_min m (token_distances w text)
    /\ _process_detected_audio self = Ok self'
    /\ (m < SIMILARITY_THRESHOLD (conf self) ->
        llm_queue self' = llm_queue self ++ [text])
    /\ (SIMILARITY_THRESHOLD (conf self) <= m ->
        llm_queue self' = llm_queue self).
Proof.
  intros Hw Hasr Htext Hhall Hsplit.
  destruct (py_min_spec (token_distances w text)) as [m [Hm Hmin]].
  { unfold token_distances. destruct (split text); [congruence|discriminate]. }
  rewrite (_process_detected_audio_gated self w text Hw Hasr Htext Hhall).
  rewrite (_wakeword_detected_eq self w text Hw), Hm. cbn [bind].
  exists m. eexists. split; [exact Hmin|]. split; [reflexivity|].
  split; intros Hcmp.
  - apply Z.ltb_lt in Hcmp. rewrite Hcmp. reflexivity.
  - apply Z.ltb_ge in Hcmp. rewrite Hcmp. reflexivity.
Qed.

End Gating.

Lemma wakeword_check_needs_a_token_witness :
  _wakeword_detected (py "   ") (Demo.recorded [py "   "]) = Raise ValueError
  /\ (exists b, _wakeword_detected (py "glados") (Demo.recorded [py "   "]) = Ok b)
  /\ _process_detected_audio (Demo.recorded [py "   "]) = Raise ValueError.
Proof.
  pose proof (wakeword_check_needs_a_token (collab := Demo.collaborators)
                (Demo.recorded [py "   "]) (py "glados") (py "   ")
                eq_refl) as [Hnone [_ Hraise]].
  pose proof (wakeword_check_needs_a_token (collab := Demo.collaborators)
                (Demo.recorded [py "   "]) (py "glados") (py "glados")
                eq_refl) as [_ [Hsome _]].
  split; [|split].
  - apply Hnone. reflexivity.
  - apply Hsome. vm_compute. discriminate.
  - apply Hraise; reflexivity.
Defined.

Lemma hallucination_is_dropped_witness :
  exists self',
    _process_detected_audio (Demo.recorded [py "Thanks for "; py "watching!"])
    = Ok self'
    /\ llm_queue self' = []
    /\ messages self' = INITIAL_MESSAGES Demo.config
    /\ recording_started self' = false
    /\ samples self' = []
    /\ gap_counter self' = 0
    /\ buffer self' = []
    /\ input_stream_active self' = true.
Proof.
  apply (hallucination_is_dropped (collab := Demo.collaborators)
           (Demo.recorded [py "Thanks for "; py "watching!"])
           (py "Thanks for watching!"));
    reflexivity.
Defined.

Lemma wake_word_gate_witness :
  exists m self',
    is_min m (token_distances (collab := Demo.collaborators)
                (py "glados") (py "gladoss are you there"))
    /\ _process_detected_audio (Demo.recorded [py "gladoss are you there"])
       = Ok self'
    /\ (m < 3 -> llm_queue self' = [py "gladoss are you there"])
    /\ (3 <= m -> llm_queue self' = []).
Proof.
  apply (wake_word_gate (collab := Demo.collaborators)
           (Demo.recorded [py "gladoss are you there"])
           (py "glados") (py "gladoss are you there")).
  - reflexivity.
  - reflexivity.
  - reflexivity.
  - vm_compute. reflexivity.
  - vm_compute. discriminate.
Defined.

(** C7 as stated fails on a transcript that is a hallucination: every
    premise of the claim holds, the minimum distance (1) is below the
    threshold (3), and yet nothing is put on the LLM queue. *)
Lemma wake_word_gate_counterexample :
  let self := Demo.recorded [py "Glados."] in
  let text := py "Glados." in
  wake_word self = Some (py "glados")
  /\ asr (samples self) = Ok text
  /\ truthy text = true
  /\ py_min (token_distances (collab := Demo.collaborators) (py "glados") text)
     = Ok 1
  /\ 1 < SIMILARITY_THRESHOLD (conf self)
  /\ exists self',
       _process_detected_audio self = Ok self'
       /\ llm_queue self' = llm_queue self
       /\ llm_queue self' <> llm_queue self ++ [text].
Proof.
  cbv zeta. do 5 (split; [vm_compute; reflexivity|]).
  exists (listening_again
            (set_processing true
               (set_input_stream_active false
                  (Demo.recorded [py "Glados."])))).
  split; [vm_compute; reflexivity|].
  split; [vm_compute; reflexivity|].
  vm_compute. discriminate.
Qed.


(** ** Clipping an interrupted sentence *)

Section Clipping.

Lemma round_div_exact (n : Z) : round_div (100 * n) 100 = n.
Proof.
  unfold round_div.
  replace (100 * n) with (n * 100) by lia.
  rewrite Z.div_mul, Z.mod_mul by lia.
  reflexivity.
Qed.

Lemma slice_to_length {A} (l : list A) :
  slice_to (Z.of_nat (length l)) l = l.
Proof.
  unfold slice_to.
  destruct (Z.of_nat (length l) <? 0) eqn:Hneg.
  - apply Z.ltb_lt in Hneg. lia.
  - rewrite Nat2Z.id. apply firstn_all.
Qed.

(** C8. At [percentage_played = 100] the clipped text is the
    whitespace-separated tokens of the sentence joined with single spaces,
    with no interruption marker appended. *)
Theorem clip_at_full_percentage (generated_text : str) :
  clip_interrupted_sentence generated_text 100
  = join space (split generated_text).
Proof.
  unfold clip_interrupted_sentence.
  rewrite round_div_exact, slice_to_length, Z.ltb_irrefl.
  reflexivity.
Qed.

End Clipping.

Example clip_ex :
  (clip_interrupted_sentence (py "one two  three four ") 100,
   clip_interrupted_sentence (py "one two  three four ") 50)
  = (py "one two three four", py "one two<INTERRUPTED>").
Proof. vm_compute. reflexivity. Qed.

(** ** Sentence cleanup *)

Section Cleanup.

Lemma speakable_not_opener (c : char) :
  speakable c = true -> N.eqb c star = false /\ N.eqb c lparen = false.
Proof.
  intros H. split; apply N.eqb_neq; intros ->; vm_compute in H; discriminate.
Qed.

(** A string without an opening star or parenthesis has no match. *)
Lemma strip_plain (s : str) :
  Forall (fun c => speakable c = true) s -> sub_stage_directions s = s.
Proof.
  unfold sub_stage_directions.
  induction 1 as [|c s Hc _ IH]; simpl; [reflexivity|].
  destruct (speakable_not_opener c Hc) as [-> ->]. now rewrite IH.
Qed.

Lemma sub_unspeakable_speakable (s : str) :
  Forall (fun c => speakable c = true) (sub_unspeakable s).
Proof.
  apply Forall_forall. intros c Hin.
  now apply filter_In in Hin.
Qed.

Lemma sub_unspeakable_plain (s : str) :
  Forall (fun c => speakable c = true) s -> sub_unspeakable s = s.
Proof.
  unfold sub_unspeakable.
  induction 1 as [|c s Hc _ IH]; simpl; [reflexivity|].
  now rewrite Hc, IH.
Qed.

Lemma remove_stopwords_none (stopwords : list str) (s : str) :
  (forall w, In w stopwords -> truthy w = true -> endswith s w = false) ->
  remove_stopwords stopwords s = s.
Proof.
  unfold remove_stopwords.
  induction stopwords as [|w rest IH]; intros Hnone; simpl; [reflexivity|].
  assert (Hw : removesuffix s w = s).
  { unfold removesuffix. destruct (truthy w) eqn:Hkind; [|reflexivity].
    now rewrite (Hnone w (or_introl eq_refl) Hkind). }
  rewrite Hw. apply IH. intros w' Hin. apply Hnone. now right.
Qed.

(** The text handed to the TTS queue consists of speakable characters. *)
Lemma cleanup_speakable (stopwords : list str) (s : str) :
  Forall (fun c => speakable c = true) (cleanup stopwords s).
Proof.
  unfold cleanup. apply Forall_app. split.
  - apply sub_unspeakable_speakable.
  - repeat constructor.
Qed.

(** C5, amended. The cleanup is not idempotent, since every application
    appends a space: applied to its own result it returns that result
    followed by one more space, provided no non-empty stopword is a suffix
    of the result.  The two substitutions alone, without stopword removal
    and the appended space, are idempotent. *)
Theorem cleanup_twice (stopwords : list str) (s : str) :
  (forall w, In w stopwords -> truthy w = true ->
             endswith (cleanup stopwords s) w = false) ->
  cleanup stopwords (cleanup stopwords s) = cleanup stopwords s ++ space
  /\ (forall t,
        sub_unspeakable
          (sub_stage_directions (sub_unspeakable (sub_stage_directions t)))
        = sub_unspeakable (sub_stage_directions t)).
Proof.
  intros Hnone. split.
  - pose proof (cleanup_speakable stopwords s) as Hplain.
    unfold cleanup at 1.
    rewrite (remove_stopwords_none _ _ Hnone).
    now rewrite (strip_plain _ Hplain), (sub_unspeakable_plain _ Hplain).
  - intros t.
    pose proof (sub_unspeakable_speakable (sub_stage_directions t)) as Hplain.
    now rewrite (strip_plain _ Hplain), (sub_unspeakable_plain _ Hplain).
Qed.

End Cleanup.

Example cleanup_ex :
  List.map (cleanup (LLM_STOPWORDS Demo.config))
    [py "Hello*whispers*(aside)."; py "How are you?<|eot_id|>"]
  = [py "Hello. "; py "How are you? "].
Proof. vm_compute. reflexivity. Qed.

Lemma cleanup_twice_witness :
  cleanup (LLM_STOPWORDS Demo.config)
    (cleanup (LLM_STOPWORDS Demo.config) (py "How are you?<|eot_id|>"))
  = py "How are you?  ".
Proof.
  destruct (cleanup_twice (LLM_STOPWORDS Demo.config)
              (py "How are you?<|eot_id|>")) as [Htwice _].
  - intros w [<-|[]] _. vm_compute. reflexivity.
  - exact Htwice.
Defined.

(** C5 as stated fails: cleaning an already cleaned sentence adds a second
    trailing space. *)
Lemma cleanup_not_idempotent :
  cleanup [] (py "Hi.") = py "Hi. "
  /\ cleanup [] (cleanup [] (py "Hi.")) = py "Hi.  "
  /\ cleanup [] (cleanup [] (py "Hi.")) <> cleanup [] (py "Hi.").
Proof.
  repeat split; vm_compute; try reflexivity; discriminate.
Qed.

(** ** Consuming the LLM stream *)

Section Streaming.

Context {collab : Collaborators}.

Lemma set_tts_queue_same (self : Glados) :
  set_tts_queue (tts_queue self) self = self.
Proof. destruct self; reflexivity. Qed.

(** A cleaned sentence is never the empty string. *)
Lemma cleanup_truthy (stopwords : list str) (s : str) :
  truthy (cleanup stopwords s) = true.
Proof.
  unfold cleanup. now destruct (sub_unspeakable _).
Qed.

(** [_process_sentence] raises on the ignore list and otherwise appends
    the cleaned sentence. *)
Lemma _process_sentence_eq (current_sentence : list str) (self : Glados) :
  _process_sentence current_sentence self
  = if on_ignore_list (conf self) (concat current_sentence)
    then Raise AttributeError
    else Ok (set_tts_queue
               (tts_queue self
                ++ [enqueued (conf self) (concat current_sentence)])
               self).
Proof.
  unfold _process_sentence, on_ignore_list, enqueued.
  now rewrite cleanup_truthy.
Qed.

(** The recording loop never raises, and what it records does not depend
    on what was recorded before. *)
Lemma iter_lines_record (lines : list (bool * option line_record)) :
  forall sentence,
  exists new residual,
    forall log,
      iter_lines record_flush lines sentence log = (log ++ new, Ok residual).
Proof.
  induction lines as [|[flag line] rest IH]; intros sentence.
  - exists [], sentence. intros log. cbn. now rewrite app_nil_r.
  - cbn [iter_lines]. destruct flag; cbn [negb].
    2:{ exists [], sentence. intros log. now rewrite app_nil_r. }
    destruct line as [line|]; [|apply IH].
    destruct (_process_line line) as [next_token|]; [|apply IH].
    destruct (truthy next_token); [|apply IH].
    destruct (str_in next_token terminators); [|apply IH].
    destruct (IH []) as [new [residual Hrec]].
    exists (concat (sentence ++ [next_token]) :: new), residual.
    intros log.
    change (record_flush (sentence ++ [next_token]) log)
      with (Ok (log ++ [concat (sentence ++ [next_token])])).
    cbv beta iota. rewrite Hrec. now rewrite <- app_assoc.
Qed.

Lemma flushed_sentences_record (lines : list (bool * option line_record)) :
  exists residual,
    forall log,
      iter_lines record_flush lines [] log
      = (log ++ flushed_sentences lines, Ok residual).
Proof.
  destruct (iter_lines_record lines []) as [new [residual Hrec]].
  exists residual. intros log. unfold flushed_sentences.
  rewrite (Hrec []), Hrec. reflexivity.
Qed.

(** The loop of [process_LLM] flushes the sentences the recording loop
    records, in order, up to the first one on the ignore list, at which
    [_process_sentence] raises; the queue grows by the cleaned sentences
    before that one. *)
Lemma iter_lines_processed (lines : list (bool * option line_record)) :
  forall (sentence : list str) (self : Glados) (log : list str),
  exists new residual,
    iter_lines record_flush lines sentence log = (log ++ new, Ok residual)
    /\ iter_lines _process_sentence lines sentence self
       = (set_tts_queue
            (tts_queue self
             ++ List.map (enqueued (conf self))
                  (fst (until_ignored (conf self) new)))
            self,
          if snd (until_ignored (conf self) new)
          then Raise AttributeError else Ok residual).
Proof.
  induction lines as [|[flag line] rest IH]; intros sentence self log.
  - exists [], sentence. cbn. now rewrite !app_nil_r, set_tts_queue_same.
  - cbn [iter_lines]. destruct flag; cbn [negb].
    2:{ exists [], sentence. cbn.
        now rewrite !app_nil_r, set_tts_queue_same. }
    destruct line as [line|]; [|apply IH].
    destruct (_process_line line) as [next_token|]; [|apply IH].
    destruct (truthy next_token); [|apply IH].
    destruct (str_in next_token terminators); [|apply IH].
    rewrite _process_sentence_eq.
    change (record_flush (sentence ++ [next_token]) log)
      with (Ok (log ++ [concat (sentence ++ [next_token])])).
    cbv beta iota.
    destruct (on_ignore_list (conf self) (concat (sentence ++ [next_token])))
      eqn:Hhit.
    + destruct (IH [] self (log ++ [concat (sentence ++ [next_token])]))
        as [new [residual [Hrec _]]].
      exists (concat (sentence ++ [next_token]) :: new), residual.
      split.
      * rewrite Hrec. now rewrite <- app_assoc.
      * cbn [until_ignored]. rewrite Hhit. cbn.
        now rewrite app_nil_r, set_tts_queue_same.
    + set (queued :=
             set_tts_queue
               (tts_queue self
                ++ [enqueued (conf self) (concat (sentence ++ [next_token]))])
               self).
      destruct (IH [] queued (log ++ [concat (sentence ++ [next_token])]))
        as [new [residual [Hrec Hrun]]].
      exists (concat (sentence ++ [next_token]) :: new), residual.
      split.
      * rewrite Hrec. now rewrite <- app_assoc.
      * rewrite Hrun. cbn [until_ignored]. rewrite Hhit.
        change (conf queued) with (conf self).
        destruct (until_ignored (conf self) new) as [before hit].
        cbn. now rewrite <- app_assoc.
Qed.

(** The loop of [process_LLM] in terms of the sentences the stream would
    flush. *)
Lemma iter_lines_flushed
    (lines : list (bool * option line_record)) (self : Glados) :
  exists residual,
    snd (iter_lines record_flush lines [] []) = Ok residual
    /\ iter_lines _process_sentence lines [] self
       = (set_tts_queue
            (tts_queue self
             ++ List.map (enqueued (conf self))
                  (fst (until_ignored (conf self) (flushed_sentences lines))))
            self,
          if snd (until_ignored (conf self) (flushed_sentences lines))
          then Raise AttributeError else Ok residual).
Proof.
  destruct (iter_lines_processed lines [] self [])
    as [new [residual [Hrec Hrun]]].
  exists residual. unfold flushed_sentences. rewrite Hrec. cbn [fst snd app].
  split; [reflexivity|exact Hrun].
Qed.

(** When no sentence is on the ignore list all of them are flushed. *)
Lemma until_ignored_none (c : Config) (sentences : list str) :
  Forall (fun s => on_ignore_list c s = false) sentences ->
  until_ignored c sentences = (sentences, false).
Proof.
  induction 1 as [|s rest Hs _ IH]; [reflexivity|].
  cbn [until_ignored]. now rewrite Hs, IH.
Qed.

(** A stream without tokens leaves the sentence being read as it is. *)
Lemma iter_lines_no_tokens {S} (flush : list str -> S -> result S)
    (lines : list (bool * option line_record)) :
  forall sentence st,
    Forall (fun t => truthy t = false) (nonstop_contents lines) ->
    iter_lines flush lines sentence st = (st, Ok sentence).
Proof.
  induction lines as [|[flag line] rest IH]; intros sentence st Hnone;
    [reflexivity|].
  cbn [iter_lines]. destruct flag; cbn [negb]; [|reflexivity].
  destruct line as [line|]; cbn [nonstop_contents] in Hnone; [|now apply IH].
  unfold _process_line. destruct (line_stop line); cbn [negb];
    [now apply IH|].
  inversion Hnone as [|t ts Ht Hts]; subst. rewrite Ht. now apply IH.
Qed.

(** What has been flushed plus what is still being read is the whole of
    the tokens seen so far. *)
Lemma iter_lines_concat (lines : list (bool * option line_record)) :
  forall sentence log log' residual,
    Forall (fun l => fst l = true) lines ->
    iter_lines record_flush lines sentence log = (log', Ok residual) ->
    concat log' ++ concat residual
    = concat log ++ concat sentence ++ concat (nonstop_contents lines).
Proof.
  induction lines as [|[flag line] rest IH];
    intros sentence log log' residual Hflags Hrun.
  - cbn in Hrun. injection Hrun as <- <-. cbn. now rewrite app_nil_r.
  - inversion Hflags as [|x xs Hflag Hrest]; subst. cbn in Hflag. subst flag.
    cbn [iter_lines negb nonstop_contents] in Hrun |- *.
    destruct line as [line|]; [|now apply (IH _ _ _ _ Hrest Hrun)].
    unfold _process_line in Hrun. destruct (line_stop line); cbn [negb] in Hrun;
      [now apply (IH _ _ _ _ Hrest Hrun)|].
    destruct (line_content line) as [|c token] eqn:Htoken.
    + cbn [truthy] in Hrun. rewrite (IH _ _ _ _ Hrest Hrun). reflexivity.
    + cbn [truthy] in Hrun. rewrite <- Htoken in *.
      destruct (str_in (line_content line) terminators).
      * change (record_flush (sentence ++ [line_content line]) log)
          with (Ok (log ++ [concat (sentence ++ [line_content line])]))
          in Hrun.
        cbv beta iota in Hrun. rewrite (IH _ _ _ _ Hrest Hrun).
        rewrite !concat_app. cbn. now rewrite !app_nil_r, <- !app_assoc.
      * rewrite (IH _ _ _ _ Hrest Hrun). rewrite concat_app. cbn.
        now rewrite !app_nil_r, <- !app_assoc.
Qed.

(** After a stream whose last non-empty token is a terminator nothing is
    left in the sentence being read. *)
Lemma iter_lines_residual {S} (flush : list str -> S -> result S)
    (lines : list (bool * option line_record)) :
  forall sentence st residual,
    Forall (fun l => fst l = true) lines ->
    (exists before t after,
        nonstop_contents lines = before ++ t :: after
        /\ str_in t terminators = true
        /\ Forall (fun t => truthy t = false) after) ->
    snd (iter_lines flush lines sentence st) = Ok residual ->
    residual = [].
Proof.
  induction lines as [|[flag line] rest IH];
    intros sentence st residual Hflags
           [before [t [after [Hsplit [Hterm Hafter]]]]] Hrun.
  - destruct before; discriminate.
  - inversion Hflags as [|x xs Hflag Hrest]; subst. cbn in Hflag. subst flag.
    cbn [iter_lines negb] in Hrun. cbn [nonstop_contents] in Hsplit.
    assert (Hnext : forall sentence st,
               nonstop_contents rest = before ++ t :: after ->
               snd (iter_lines flush rest sentence st) = Ok residual ->
               residual = []).
    { intros s' st' Heq. apply IH; [exact Hrest|].
      exists before, t, after. auto. }
    destruct line as [line|]; [|exact (Hnext _ _ Hsplit Hrun)].
    unfold _process_line in Hrun. destruct (line_stop line); cbn [negb] in Hrun;
      [exact (Hnext _ _ Hsplit Hrun)|].
    destruct before as [|b before'].
    + cbn in Hsplit. injection Hsplit as Htok Hafter'.
      rewrite Htok in Hrun.
      assert (Htruthy : truthy t = true).
      { destruct t; [discriminate Hterm|reflexivity]. }
      rewrite Htruthy, Hterm in Hrun.
      destruct (flush (sentence ++ [t]) st) as [st'| |]; try discriminate.
      rewrite iter_lines_no_tokens in Hrun
        by (rewrite Hafter'; exact Hafter).
      cbn in Hrun. now injection Hrun as <-.
    + cbn in Hsplit. injection Hsplit as _ Hrest'.
      assert (Hrec : forall sentence st,
                 snd (iter_lines flush rest sentence st) = Ok residual ->
                 residual = []).
      { intros s' st'. apply IH; [exact Hrest|].
        exists before', t, after. auto. }
      destruct (truthy (line_content line)); [|exact (Hrec _ _ Hrun)].
      destruct (str_in (line_content line) terminators);
        [|exact (Hrec _ _ Hrun)].
      destruct (flush _ st) as [st'| |]; try discriminate.
      exact (Hrec _ _ Hrun).
Qed.

End Streaming.

(** C6 fails on the code.  With [Bye. ] on the ignore list, the stream
    [Hi], [.], [Bye], [.], [Wait], [!] is consumed with [processing] true
    throughout and ends with a terminator.  The first sentence is flushed;
    at the second [_process_sentence] raises [AttributeError], since the
    logger has no [warn], and the loop ends there: the sentences flushed
    concatenate to [Hi.], not to the contents of the non-stop records, and
    the iteration of the worker ends with that exception, without the
    end-of-stream marker on the queue. *)
Theorem ignored_sentence_ends_the_stream :
  iter_lines traced_flush Demo.three_sentences [] ([], Demo.picky_asked)
  = (([py "Hi."],
      set_tts_queue [Str (py "Hi. ")] Demo.picky_asked),
     Raise AttributeError)
  /\ concat (nonstop_contents Demo.three_sentences) = py "Hi.Bye.Wait!"
  /\ snd (process_LLM (OK Demo.three_sentences true) Demo.picky_asked)
     = Raise AttributeError
  /\ tts_queue
       (fst (process_LLM (OK Demo.three_sentences true) Demo.picky_asked))
     = [Str (py "Hi. ")].
Proof. repeat split; vm_compute; reflexivity. Qed.

(** ** The residual sentence at the end of a stream *)

(** C4 fails on the code.  The stream [Hi], [.], [Bye] is consumed with
    [processing] true throughout: the flushed sentence reaches the TTS
    queue cleaned, the residual one is put there as the raw list of its
    tokens, not as the cleaned string [_process_sentence] would produce,
    and the end-of-stream marker follows. *)
Theorem residual_sentence_is_not_cleaned :
  snd (process_LLM (OK Demo.unfinished_stream true)
         (Demo.asked (py "glados hello")))
  = Ok tt
  /\ tts_queue
       (fst (process_LLM (OK Demo.unfinished_stream true)
               (Demo.asked (py "glados hello"))))
     = [Str (py "Hi. "); Toks [py "Bye"]; Str EOS]
  /\ exists cleaned,
       _process_sentence [py "Bye"] (Demo.asked (py "glados hello"))
       = Ok cleaned
       /\ tts_queue cleaned = [Str (py "Bye ")].
Proof.
  split; [vm_compute; reflexivity|].
  split; [vm_compute; reflexivity|].
  eexists. split; vm_compute; reflexivity.
Qed.

(** ** The TTS worker and the message log *)

Section Transcript.

Context {collab : Collaborators}.

Lemma str_eqb_true (a b : str) : str_eqb a b = true -> a = b.
Proof.
  revert b. induction a as [|x a IH]; intros [|y b] H; simpl in H;
    try discriminate; [reflexivity|].
  apply andb_prop in H as [Hx Hrest]. apply N.eqb_eq in Hx.
  now rewrite Hx, (IH b Hrest).
Qed.

(** A cleaned sentence ends with a space and is never the end-of-stream
    marker. *)
Lemma cleanup_not_EOS (stopwords : list str) (s : str) :
  str_eqb (cleanup stopwords s) EOS = false.
Proof.
  destruct (str_eqb (cleanup stopwords s) EOS) eqn:Heq; [|reflexivity].
  apply str_eqb_true in Heq. unfold cleanup in Heq.
  change EOS with (py "<EOS" ++ py ">") in Heq.
  apply app_inj_tail in Heq as [_ Heq]. discriminate Heq.
Qed.

Lemma enqueued_not_EOS (c : Config) (sentences : list str) :
  Forall (fun item => is_EOS item = false) (List.map (enqueued c) sentences).
Proof.
  induction sentences as [|s rest IH]; cbn [List.map]; constructor;
    [apply cleanup_not_EOS|exact IH].
Qed.

(** An OK response: the user turn is logged and the sentences of the
    stream are queued for the TTS worker; the end-of-stream marker follows
    unless [_process_sentence] has raised, which ends the iteration with
    that exception. *)
Lemma process_LLM_OK (self : Glados) (text : str) (waiting : list str)
    (lines : list (bool * option line_record)) (processing_after : bool) :
  llm_queue self = text :: waiting ->
  exists items,
    Forall (fun item => is_EOS item = false) items
    /\ (process_LLM (OK lines processing_after) self
        = (set_tts_queue (tts_queue self ++ items ++ [Str EOS])
             (set_messages
                (messages self ++ [{| role := user; content := text |}])
                (set_llm_queue waiting self)),
           Ok tt)
        \/ process_LLM (OK lines processing_after) self
           = (set_tts_queue (tts_queue self ++ items)
                (set_messages
                   (messages self ++ [{| role := user; content := text |}])
                   (set_llm_queue waiting self)),
              Raise AttributeError)).
Proof.
  intros Hq. unfold process_LLM. rewrite Hq.
  set (logged := set_messages _ (set_llm_queue waiting self)).
  destruct (iter_lines_flushed lines logged) as [residual [_ Hrun]].
  rewrite Hrun. change (conf logged) with (conf self).
  destruct (until_ignored (conf self) (flushed_sentences lines))
    as [before hit].
  cbn [fst snd]. destruct hit.
  - exists (List.map (enqueued (conf self)) before).
    split; [apply enqueued_not_EOS|]. right. reflexivity.
  - destruct (processing_after && truthy residual).
    + exists (List.map (enqueued (conf self)) before ++ [Toks residual]).
      split.
      * apply Forall_app. split; [apply enqueued_not_EOS|].
        repeat constructor.
      * left. cbn. now rewrite <- !app_assoc.
    + exists (List.map (enqueued (conf self)) before).
      split; [apply enqueued_not_EOS|].
      left. cbn. now rewrite <- !app_assoc.
Qed.

(** A response that is not OK: only the user turn is logged. *)
Lemma process_LLM_failed (self : Glados) (text : str) (waiting : list str)
    (resp : response) :
  llm_queue self = text :: waiting ->
  is_OK resp = false ->
  process_LLM resp self
  = (set_messages (messages self ++ [{| role := user; content := text |}])
       (set_llm_queue waiting self),
     Ok tt).
Proof.
  intros Hq Hresp. unfold process_LLM. rewrite Hq.
  destruct resp; [reflexivity|reflexivity|discriminate].
Qed.

(** One iteration of the TTS worker that does not raise either leaves
    the log alone and consumes one item that is not the marker, or
    appends one assistant turn. *)
Lemma process_TTS_thread_step (env : tts_env) (self self' : Glados)
    (loc loc' : tts_locals) (item : tts_item) (waiting : list tts_item) :
  tts_queue self = item :: waiting ->
  finished loc = false ->
  process_TTS_thread env (self, loc) = Ok (self', loc') ->
  finished loc' = false
  /\ conf self' = conf self
  /\ llm_queue self' = llm_queue self
  /\ ((is_EOS item = false
       /\ messages self' = messages self
       /\ tts_queue self' = waiting)
      \/ (exists c,
            messages self'
            = messages self ++ [{| role := assistant; content := c |}]
            /\ (tts_queue self' = []
                \/ (is_EOS item = true /\ tts_queue self' = waiting)))).
Proof.
  intros Hq Hfin Hstep. unfold process_TTS_thread in Hstep.
  rewrite Hq in Hstep.
  destruct (is_EOS item) eqn:Heos.
  - cbn in Hstep. destruct (assistant_text loc) as [|selected rest];
      [discriminate|].
    cbn in Hstep. injection Hstep as <- <-. cbn.
    repeat split. right. eexists. split; [reflexivity|]. right. auto.
  - destruct (item_truthy item); cbn [negb] in Hstep.
    2:{ cbn in Hstep. rewrite Hfin in Hstep. injection Hstep as <- <-.
        cbn. repeat split; auto. }
    destruct (0 <? total_samples env)%nat.
    2:{ cbn in Hstep. rewrite Hfin in Hstep. injection Hstep as <- <-.
        cbn. repeat split; auto. }
    unfold percentage_played in Hstep.
    destruct (existsb negb (polls (monitor env))).
    + destruct (clip_item item _) as [clipped| |]; try discriminate.
      cbn in Hstep.
      destruct (assistant_text loc ++ [item]) as [|selected rest] eqn:Happ.
      { destruct (assistant_text loc); discriminate. }
      cbn in Hstep. injection Hstep as <- <-. cbn.
      repeat split. right. eexists. split; [reflexivity|]. now left.
    + cbn in Hstep. rewrite Hfin in Hstep. injection Hstep as <- <-.
      cbn. repeat split; auto.
Qed.

Lemma TTS_iterations_empty (fuel : nat) (env : nat -> tts_env) (k : nat)
    (st : Glados * tts_locals) :
  tts_queue (fst st) = [] -> TTS_iterations fuel env k st = Ok st.
Proof. intros Hq. destruct fuel; cbn; [|rewrite Hq]; reflexivity. Qed.

(** Emptying a queue that holds the items of one turn followed by the
    marker appends exactly one assistant turn, unless the worker raises. *)
Lemma TTS_iterations_commit (items : list tts_item) :
  forall (fuel : nat) (env : nat -> tts_env) (k : nat)
         (self self' : Glados) (loc loc' : tts_locals),
    tts_queue self = items ++ [Str EOS] ->
    Forall (fun item => is_EOS item = false) items ->
    finished loc = false ->
    (length items < fuel)%nat ->
    TTS_iterations fuel env k (self, loc) = Ok (self', loc') ->
    finished loc' = false
    /\ conf self' = conf self
    /\ llm_queue self' = llm_queue self
    /\ tts_queue self' = []
    /\ exists c,
         messages self'
         = messages self ++ [{| role := assistant; content := c |}].
Proof.
  induction items as [|item items IH];
    intros fuel env k self self' loc loc' Hq Hitems Hfin Hfuel Hrun.
  - destruct fuel as [|fuel]; [cbn in Hfuel; lia|].
    cbn [TTS_iterations fst] in Hrun. rewrite Hq in Hrun. cbn [app] in Hrun.
    destruct (process_TTS_thread (env k) (self, loc))
      as [[self1 loc1]| |] eqn:Hstep; try discriminate.
    cbn [bind] in Hrun.
    destruct (process_TTS_thread_step _ _ _ _ _ _ _ Hq Hfin Hstep)
      as [Hfin1 [Hconf [Hllm [[Hno _]|[c [Hmsg Hqueue]]]]]];
      [discriminate Hno|].
    assert (Hq1 : tts_queue self1 = []) by (destruct Hqueue as [|[_ ?]]; auto).
    rewrite TTS_iterations_empty in Hrun by exact Hq1.
    injection Hrun as <- <-. repeat split; eauto.
  - destruct fuel as [|fuel]; [cbn in Hfuel; lia|].
    inversion Hitems as [|x xs Hitem Hrest]; subst.
    cbn [TTS_iterations fst] in Hrun. rewrite Hq in Hrun. cbn [app] in Hrun.
    destruct (process_TTS_thread (env k) (self, loc))
      as [[self1 loc1]| |] eqn:Hstep; try discriminate.
    cbn [bind] in Hrun.
    destruct (process_TTS_thread_step _ _ _ _ _ _ _ Hq Hfin Hstep)
      as [Hfin1 [Hconf [Hllm [[_ [Hmsg Hq1]]|[c [Hmsg Hqueue]]]]]].
    + cbn in Hfuel.
      destruct (IH fuel env (S k) self1 self' loc1 loc' Hq1 Hrest Hfin1
                  ltac:(lia) Hrun)
        as [Hfin' [Hconf' [Hllm' [Hq' [c Hmsg']]]]].
      repeat split; try congruence. exists c. congruence.
    + assert (Hq1 : tts_queue self1 = []).
      { destruct Hqueue as [|[Heos _]]; [assumption|congruence]. }
      rewrite TTS_iterations_empty in Hrun by exact Hq1.
      injection Hrun as <- <-. repeat split; eauto.
Qed.

Lemma alternates_from_app (l l' : list role_t) :
  forall expected,
    expected = user \/ expected = assistant ->
    alternates_from expected (l ++ l')
    = alternates_from expected l
      && alternates_from
           (if Nat.even (length l) then expected else other_turn expected) l'.
Proof.
  induction l as [|r l IH]; intros expected Hturn; [reflexivity|].
  cbn [app alternates_from length].
  rewrite (IH (other_turn expected)).
  2:{ destruct Hturn as [-> | ->]; cbn; auto. }
  rewrite andb_assoc. f_equal.
  rewrite Nat.even_succ, <- Nat.negb_even.
  destruct (Nat.even (length l)); cbn [negb]; [reflexivity|].
  destruct Hturn as [-> | ->]; reflexivity.
Qed.

(** A completed pair of turns keeps the roles alternating. *)
Lemma alternates_pair (l : list role_t) :
  alternates l = true ->
  Nat.even (length l) = true ->
  alternates (l ++ [user; assistant]) = true.
Proof.
  intros Halt Heven. unfold alternates in *.
  rewrite alternates_from_app by auto.
  now rewrite Halt, Heven.
Qed.

(** A turn with an OK response that the TTS worker completes without
    raising takes a settled pipeline to a settled pipeline. *)
Lemma run_turn_settled (t : turn) (st st' : Glados * tts_locals) :
  settled st ->
  is_OK (turn_response t) = true ->
  run_turn t st = Ok st' ->
  settled st' /\ conf (fst st') = conf (fst st).
Proof.
  destruct st as [self loc], st' as [self' loc'].
  intros [Hllm [Htts [Hfin [extra [Hmsg [Halt Heven]]]]]] Hok Hrun.
  cbn [fst snd] in *.
  unfold run_turn in Hrun.
  destruct (turn_response t) as [| |lines processing_after];
    try discriminate.
  destruct (process_LLM_OK (forward_to_llm (turn_text t) self)
              (turn_text t) [] lines processing_after)
    as [items [Hitems [Hllm_run|Hllm_run]]].
  { cbn. now rewrite Hllm. }
  2:{ rewrite Hllm_run in Hrun. discriminate Hrun. }
  rewrite Hllm_run in Hrun. cbn [bind] in Hrun. unfold TTS_drain in Hrun.
  cbn [fst tts_queue set_tts_queue] in Hrun.
  cbn [forward_to_llm tts_queue set_processing set_llm_queue] in Hrun.
  rewrite Htts in Hrun. cbn [app] in Hrun.
  eapply TTS_iterations_commit in Hrun;
    [|cbn; reflexivity|exact Hitems|exact Hfin|rewrite length_app; cbn; lia].
  destruct Hrun as [Hfin' [Hconf [Hllm' [Htts' [c Hmsg']]]]].
  cbn in Hconf, Hllm', Hmsg'.
  split; [|exact Hconf].
  repeat split; cbn [fst snd]; try assumption.
  exists (extra ++ [{| role := user; content := turn_text t |};
                    {| role := assistant; content := c |}]).
  repeat split.
  - rewrite Hmsg', Hconf, Hmsg. now rewrite <- !app_assoc.
  - rewrite map_app. cbn [List.map role].
    apply alternates_pair; [exact Halt|now rewrite length_map].
  - rewrite length_app. cbn [length].
    replace (length extra + 2)%nat with (S (S (length extra))) by lia.
    exact Heven.
Qed.

Lemma run_turns_settled (ts : list turn) :
  forall st st',
    settled st ->
    forallb (fun t => is_OK (turn_response t)) ts = true ->
    run_turns ts st = Ok st' ->
    settled st'.
Proof.
  induction ts as [|t ts IH]; intros st st' Hst Hok Hrun.
  - cbn in Hrun. now injection Hrun as <-.
  - cbn in Hok. apply andb_prop in Hok as [Hok Hoks].
    cbn [run_turns] in Hrun.
    destruct (run_turn t st) as [st1| |] eqn:Hturn; try discriminate.
    cbn [bind] in Hrun.
    destruct (run_turn_settled t st st1 Hst Hok Hturn) as [Hst1 _].
    exact (IH st1 st' Hst1 Hoks Hrun).
Qed.

Lemma settled_alternates (st : Glados * tts_locals) :
  settled st -> alternates (roles_after_seed (fst st)) = true.
Proof.
  intros [_ [_ [_ [extra [Hmsg [Halt _]]]]]].
  unfold roles_after_seed. rewrite Hmsg.
  rewrite skipn_app, skipn_all, Nat.sub_diag. cbn [skipn app]. exact Halt.
Qed.

Lemma init_settled (c : Config) (self : Glados) :
  init c = Ok self -> settled (self, tts_start).
Proof.
  unfold init, floordiv. destruct (VAD_SIZE c =? 0); [discriminate|].
  cbn. intros H. injection H as <-. cbn.
  repeat split. exists []. cbn. now rewrite app_nil_r.
Qed.

(** C2, amended.  From the initial state, after any sequence of turns
    each run to completion (the transcript is forwarded, the LLM worker
    serves it with an OK response, the TTS worker empties its queue
    without raising), the roles of the entries that follow the seed
    alternate user, assistant, user, assistant.  When the response is not
    OK or the connection fails, the iteration of the LLM worker appends
    the user turn and leaves the TTS queue as it was, so that no assistant
    turn follows. *)
Theorem transcript_alternates_over_completed_turns
    (c : Config) (ts : list turn) (self0 self : Glados) (loc : tts_locals) :
  init c = Ok self0 ->
  forallb (fun t => is_OK (turn_response t)) ts = true ->
  run_turns ts (self0, tts_start) = Ok (self, loc) ->
  alternates (roles_after_seed self) = true
  /\ (forall (s : Glados) text waiting resp,
        llm_queue s = text :: waiting ->
        is_OK resp = false ->
        messages (fst (process_LLM resp s))
        = messages s ++ [{| role := user; content := text |}]
        /\ tts_queue (fst (process_LLM resp s)) = tts_queue s
        /\ snd (process_LLM resp s) = Ok tt).
Proof.
  intros Hinit Hok Hrun. split.
  - apply (settled_alternates (self, loc)).
    exact (run_turns_settled ts _ _ (init_settled c self0 Hinit) Hok Hrun).
  - intros s text waiting resp Hq Hresp.
    rewrite (process_LLM_failed s text waiting resp Hq Hresp).
    repeat split.
Qed.

End Transcript.

Lemma transcript_alternates_over_completed_turns_witness :
  exists self loc,
    run_turns [Demo.answered_turn; Demo.interrupted_turn]
      (Demo.fresh, tts_start) = Ok (self, loc)
    /\ roles_after_seed self = [user; assistant; user; assistant]
    /\ alternates (roles_after_seed self) = true.
Proof.
  destruct (run_turns [Demo.answered_turn; Demo.interrupted_turn]
              (Demo.fresh, tts_start)) as [[self loc]| |] eqn:Hrun.
  - exists self, loc. split; [reflexivity|]. split.
    + vm_compute in Hrun. injection Hrun as <- _. reflexivity.
    + apply (transcript_alternates_over_completed_turns
               (collab := Demo.collaborators) Demo.config
               [Demo.answered_turn; Demo.interrupted_turn]
               Demo.fresh self loc).
      * reflexivity.
      * reflexivity.
      * exact Hrun.
  - vm_compute in Hrun. discriminate Hrun.
  - vm_compute in Hrun. discriminate Hrun.
Defined.

(** C2 as stated fails: two requests in a row for which the server is not
    OK, or cannot be reached, leave two consecutive user turns in the
    log. *)
Lemma transcript_alternation_counterexample :
  exists self loc,
    run_turns [Demo.failed_turn (py "glados hello");
               Demo.unreachable_turn (py "glados are you there")]
      (Demo.fresh, tts_start) = Ok (self, loc)
    /\ roles_after_seed self = [user; user]
    /\ alternates (roles_after_seed self) = false.
Proof.
  destruct (run_turns [Demo.failed_turn (py "glados hello");
                       Demo.unreachable_turn (py "glados are you there")]
              (Demo.fresh, tts_start)) as [[self loc]| |] eqn:Hrun.
  - exists self, loc. split; [reflexivity|].
    vm_compute in Hrun. injection Hrun as <- _. split; reflexivity.
  - vm_compute in Hrun. discriminate Hrun.
  - vm_compute in Hrun. discriminate Hrun.
Qed.

(** ** The assistant turn the TTS worker records *)

Section Commit.

Context {collab : Collaborators}.

(** On the end-of-stream marker the worker keeps the first queue item it
    has spoken and joins the elements of that item: the characters of a
    string, or the tokens of a list. *)
Lemma commit_uses_first_item (env : tts_env) (self : Glados)
    (loc : tts_locals) (waiting : list tts_item)
    (spoken : tts_item) (others : list tts_item) :
  tts_queue self = Str EOS :: waiting ->
  assistant_text loc = spoken :: others ->
  exists self' loc',
    process_TTS_thread env (self, loc) = Ok (self', loc')
    /\ messages self'
       = messages self
         ++ [{| role := assistant;
                content := join space (elements spoken) |}]
    /\ assistant_text loc' = [].
Proof.
  intros Hq Htext. unfold process_TTS_thread. rewrite Hq.
  cbn. rewrite Htext. cbn. eauto.
Qed.

End Commit.

(** C3 fails on the code.  The worker receives two sentences, each played
    to its end, then the end-of-stream marker.  The assistant turn it
    appends holds the characters of the first sentence separated by
    spaces, not the two sentences joined with a space. *)
Theorem assistant_turn_spells_first_sentence :
  exists self loc,
    TTS_drain (fun _ => Demo.played) (Demo.two_sentences, tts_start)
    = Ok (self, loc)
    /\ messages self
       = messages Demo.two_sentences
         ++ [{| role := assistant; content := py "H e l l o .  " |}]
    /\ join space [py "Hello. "; py "How are you? "]
       = py "Hello.  How are you? ".
Proof.
  destruct (TTS_drain (fun _ => Demo.played) (Demo.two_sentences, tts_start))
    as [[self loc]| |] eqn:Hrun.
  - exists self, loc. split; [reflexivity|].
    vm_compute in Hrun. injection Hrun as <- _. split; reflexivity.
  - vm_compute in Hrun. discriminate Hrun.
  - vm_compute in Hrun. discriminate Hrun.
Qed.

(** ** Further properties of the assembler thread *)

Section Listening.

Context {collab : Collaborators}.

Lemma assembler_frame_refl (self : Glados) : assembler_frame self self.
Proof.
  repeat split. exists []. now rewrite app_nil_r.
Qed.

Lemma assembler_frame_trans (a b c : Glados) :
  assembler_frame a b -> assembler_frame b c -> assembler_frame a c.
Proof.
  intros [H1 [H2 [H3 [H4 [H5 [x Hx]]]]]] [K1 [K2 [K3 [K4 [K5 [y Hy]]]]]].
  repeat split; try congruence.
  exists (x ++ y). rewrite Hy, Hx. now rewrite app_assoc.
Qed.

Ltac frame_done :=
  repeat split; cbn;
  first [exists []; now rewrite app_nil_r | eexists; reflexivity].

Lemma _process_detected_audio_frame (self self' : Glados) :
  _process_detected_audio self = Ok self' -> assembler_frame self self'.
Proof.
  unfold _process_detected_audio.
  destruct (asr _) as [detected_text| |]; cbn [bind]; try discriminate.
  destruct (truthy detected_text && negb _).
  - destruct (wake_word _).
    + destruct (_wakeword_detected _ _) as [[|]| |]; cbn [bind];
        try discriminate; intros H; injection H as <-; frame_done.
    + cbn [bind]. intros H; injection H as <-; frame_done.
  - destruct (truthy detected_text && _); cbn [bind];
      intros H; injection H as <-; frame_done.
Qed.

Lemma _handle_audio_sample_frame
    (sample : frame) (vad_confidence : bool) (self self' : Glados) :
  _handle_audio_sample sample vad_confidence self = Ok self' ->
  assembler_frame self self'.
Proof.
  unfold _handle_audio_sample.
  destruct (recording_started self); cbn [negb].
  - unfold _process_activated_audio.
    destruct vad_confidence; cbn [negb].
    + intros H. injection H as <-. repeat split.
      exists []. cbn. now rewrite app_nil_r.
    + destruct (floordiv _ _) as [limit| |]; cbn [bind]; try discriminate.
      destruct (limit <=? _).
      * intros H. apply _process_detected_audio_frame in H.
        eapply assembler_frame_trans; [|exact H].
        repeat split. exists []. cbn. now rewrite app_nil_r.
      * intros H. injection H as <-. repeat split.
        exists []. cbn. now rewrite app_nil_r.
  - unfold _manage_pre_activation_buffer.
    destruct (put _ _ _) as [queue| |]; cbn [bind]; try discriminate.
    destruct vad_confidence; intros H; injection H as <-;
      destruct (full _ _); repeat split; cbn;
      exists []; now rewrite app_nil_r.
Qed.

(** X7. Whatever samples the listening loop handles, it never changes the
    message log, the TTS queue, the configuration or the wake word, and it
    only ever appends to the LLM queue. *)
Theorem listening_never_touches_the_transcript
    (queue : list (frame * bool)) (self self' : Glados) :
  _listen_and_respond queue self = Ok self' ->
  messages self' = messages self
  /\ tts_queue self' = tts_queue self
  /\ conf self' = conf self
  /\ wake_word self' = wake_word self
  /\ exists added, llm_queue self' = llm_queue self ++ added.
Proof.
  intros Hrun.
  assert (Hframe : assembler_frame self self').
  { revert self Hrun.
    induction queue as [|[sample vad] rest IH]; intros self Hrun.
    - cbn in Hrun. injection Hrun as <-. apply assembler_frame_refl.
    - cbn [_listen_and_respond] in Hrun.
      destruct (_handle_audio_sample sample vad self) as [self1| |] eqn:Hstep;
        try discriminate.
      cbn [bind] in Hrun.
      eapply assembler_frame_trans.
      + exact (_handle_audio_sample_frame _ _ _ _ Hstep).
      + exact (IH _ Hrun). }
  destruct Hframe as [H1 [H2 [H3 [H4 [H5 H6]]]]]. auto.
Qed.

(** X1. In every state the listening loop reaches from the initial one,
    the pre-roll buffer holds no more frames than its queue admits
    ([BUFFER_SIZE // VAD_SIZE], when that is positive). *)
Theorem preroll_buffer_stays_within_bound
    (c : Config) (queue : list (frame * bool)) (self0 self : Glados) :
  init c = Ok self0 ->
  _listen_and_respond queue (start self0) = Ok self ->
  buffer_maxsize self = BUFFER_SIZE c / VAD_SIZE c
  /\ (0 < BUFFER_SIZE c / VAD_SIZE c ->
      Z.of_nat (length (buffer self)) <= BUFFER_SIZE c / VAD_SIZE c).
Proof.
  intros Hinit Hrun.
  assert (Hmax0 : buffer_maxsize (start self0) = BUFFER_SIZE c / VAD_SIZE c).
  { unfold init, floordiv in Hinit.
    destruct (VAD_SIZE c =? 0); [discriminate|].
    cbn in Hinit. injection Hinit as <-. reflexivity. }
  assert (Hb0 : 0 < buffer_maxsize (start self0) ->
                Z.of_nat (length (buffer (start self0)))
                <= buffer_maxsize (start self0)).
  { exact (init_buffer_bound c self0 Hinit). }
  rewrite <- Hmax0. clear Hmax0 Hinit.
  revert Hb0 Hrun. generalize (start self0) as s. clear self0.
  induction queue as [|[sample vad] rest IH]; intros s Hb Hrun.
  - cbn in Hrun. injection Hrun as <-. auto.
  - cbn [_listen_and_respond] in Hrun.
    destruct (_handle_audio_sample sample vad s) as [s1| |] eqn:Hstep;
      try discriminate.
    cbn [bind] in Hrun.
    destruct (_handle_audio_sample_frame _ _ _ _ Hstep)
      as [_ [_ [Hmax _]]].
    rewrite <- Hmax.
    apply IH; [|exact Hrun].
    exact (buffer_bound_preserved s s1 sample vad Hb Hstep).
Qed.

End Listening.


Lemma listening_never_touches_the_transcript_witness :
  exists self',
    _listen_and_respond Demo.spoken_request (start Demo.fresh) = Ok self'
    /\ messages self' = INITIAL_MESSAGES Demo.config
    /\ tts_queue self' = []
    /\ llm_queue self' = [py "glados hello"].
Proof.
  destruct (_listen_and_respond Demo.spoken_request (start Demo.fresh))
    as [self'| |] eqn:Hrun.
  - exists self'. split; [reflexivity|].
    destruct (listening_never_touches_the_transcript
                (collab := Demo.collaborators)
                Demo.spoken_request (start Demo.fresh) self' Hrun)
      as [Hmsg [Htts _]].
    split; [exact Hmsg|]. split; [exact Htts|].
    vm_compute in Hrun. injection Hrun as <-. reflexivity.
  - vm_compute in Hrun. discriminate Hrun.
  - vm_compute in Hrun. discriminate Hrun.
Defined.

Lemma preroll_buffer_stays_within_bound_witness :
  exists self,
    _listen_and_respond [Demo.quiet; Demo.quiet; Demo.quiet; Demo.quiet]
      (start Demo.fresh) = Ok self
    /\ buffer_maxsize self = 3
    /\ Z.of_nat (length (buffer self)) <= 3.
Proof.
  destruct (_listen_and_respond
              [Demo.quiet; Demo.quiet; Demo.quiet; Demo.quiet]
              (start Demo.fresh)) as [self| |] eqn:Hrun.
  - exists self. split; [reflexivity|].
    destruct (preroll_buffer_stays_within_bound
                (collab := Demo.collaborators) Demo.config
                [Demo.quiet; Demo.quiet; Demo.quiet; Demo.quiet]
                Demo.fresh self eq_refl Hrun) as [Hmax Hbound].
    split; [exact Hmax|]. apply Hbound. reflexivity.
  - vm_compute in Hrun. discriminate Hrun.
  - vm_compute in Hrun. discriminate Hrun.
Defined.

(** ** Assembling an utterance *)

Section Utterance.

Context {collab : Collaborators}.

Lemma _listen_and_respond_app (q1 q2 : list (frame * bool)) :
  forall self,
    _listen_and_respond (q1 ++ q2) self
    = (self' <- _listen_and_respond q1 self ;; _listen_and_respond q2 self').
Proof.
  induction q1 as [|[sample vad] rest IH]; intros self; [reflexivity|].
  cbn [app _listen_and_respond].
  destruct (_handle_audio_sample sample vad self); cbn [bind];
    [apply IH|reflexivity|reflexivity].
Qed.

Lemma bind_Ok {A} (m : result A) : (x <- m ;; Ok x) = m.
Proof. now destruct m. Qed.

Lemma set_buffer_same (self : Glados) : set_buffer (buffer self) self = self.
Proof. destruct self; reflexivity. Qed.

Lemma set_buffer_twice (a b : list frame) (self : Glados) :
  set_buffer a (set_buffer b self) = set_buffer a self.
Proof. reflexivity. Qed.

Lemma recording_state_same (self : Glados) :
  set_gap_counter (gap_counter self) (set_samples (samples self) self) = self.
Proof. destruct self; reflexivity. Qed.

Lemma tl_skipn {A} (n : nat) (l : list A) : tl (skipn n l) = skipn (S n) l.
Proof.
  revert l. induction n as [|n IH]; intros [|x l]; try reflexivity.
  cbn [skipn]. apply IH.
Qed.

Lemma most_recent_bound {A} (maxsize : Z) (l : list A) :
  0 < maxsize -> Z.of_nat (length (most_recent maxsize l)) <= maxsize.
Proof.
  intros Hpos. unfold most_recent.
  apply Z.ltb_lt in Hpos as Hb. rewrite Hb, length_skipn. lia.
Qed.

Lemma most_recent_all {A} (maxsize : Z) (l : list A) :
  (0 < maxsize -> Z.of_nat (length l) <= maxsize) ->
  most_recent maxsize l = l.
Proof.
  intros Hbound. unfold most_recent.
  destruct (0 <? maxsize) eqn:Hpos; [|reflexivity].
  apply Z.ltb_lt in Hpos. specialize (Hbound Hpos).
  replace (length l - Z.to_nat maxsize)%nat with 0%nat by lia.
  reflexivity.
Qed.

(** Inserting into the queue, with eviction when it is full, keeps the
    most recent frames. *)
Lemma evict_most_recent {A} (maxsize : Z) (l : list A) (x : A) :
  (if full maxsize (most_recent maxsize l)
   then tl (most_recent maxsize l) else most_recent maxsize l) ++ [x]
  = most_recent maxsize (l ++ [x]).
Proof.
  unfold full, most_recent.
  destruct (0 <? maxsize) eqn:Hpos; cbn [andb]; [|reflexivity].
  apply Z.ltb_lt in Hpos.
  rewrite length_skipn, length_app. cbn [length].
  destruct (Nat.le_gt_cases (Z.to_nat maxsize) (length l)) as [Hfull|Hroom].
  - replace (maxsize <=? _) with true by (symmetry; apply Z.leb_le; lia).
    rewrite tl_skipn.
    replace (length l + 1 - Z.to_nat maxsize)%nat
      with (S (length l - Z.to_nat maxsize)) by lia.
    rewrite skipn_app.
    replace (S (length l - Z.to_nat maxsize) - length l)%nat with 0%nat
      by lia.
    reflexivity.
  - replace (maxsize <=? _) with false by (symmetry; apply Z.leb_gt; lia).
    replace (length l - Z.to_nat maxsize)%nat with 0%nat by lia.
    replace (length l + 1 - Z.to_nat maxsize)%nat with 0%nat by lia.
    reflexivity.
Qed.

(** The state after a frame is handled before activation. *)
Lemma pre_activation_step
    (self : Glados) (sample : frame) (vad_confidence : bool) :
  recording_started self = false ->
  (0 < buffer_maxsize self ->
   Z.of_nat (length (buffer self)) <= buffer_maxsize self) ->
  _handle_audio_sample sample vad_confidence self
  = let kept := most_recent (buffer_maxsize self) (buffer self ++ [sample]) in
    Ok (if vad_confidence
        then set_recording_started true
               (set_samples kept
                  (set_processing false (sd_stop (set_buffer kept self))))
        else set_buffer kept self).
Proof.
  intros Hpre Hbound. unfold _handle_audio_sample. rewrite Hpre.
  cbn [negb]. unfold _manage_pre_activation_buffer.
  pose proof (put_after_eviction (buffer_maxsize self) (buffer self)
                sample Hbound) as Hput.
  pose proof (evict_most_recent (buffer_maxsize self) (buffer self) sample)
    as Hkept.
  rewrite (most_recent_all _ _ Hbound) in Hkept.
  cbv zeta. rewrite <- Hkept.
  destruct (full (buffer_maxsize self) (buffer self)); cbn in Hput |- *;
    rewrite Hput; cbn [bind]; destruct vad_confidence; reflexivity.
Qed.

(** X2. While recording has not started, unvoiced frames only fill the
    pre-roll buffer, which keeps the most recent [BUFFER_SIZE // VAD_SIZE]
    frames: recording does not start and nothing else in the state
    changes, however many such frames arrive. *)
Theorem silence_only_fills_the_preroll_buffer
    (self : Glados) (frames : list frame) :
  recording_started self = false ->
  (0 < buffer_maxsize self ->
   Z.of_nat (length (buffer self)) <= buffer_maxsize self) ->
  _listen_and_respond (List.map (fun f => (f, false)) frames) self
  = Ok (set_buffer
          (most_recent (buffer_maxsize self) (buffer self ++ frames)) self).
Proof.
  intros Hpre Hbound.
  induction frames as [|f frames IH] using rev_ind.
  - cbn. now rewrite app_nil_r, (most_recent_all _ _ Hbound), set_buffer_same.
  - rewrite map_app, _listen_and_respond_app, IH. cbn [bind List.map].
    cbn [_listen_and_respond].
    rewrite pre_activation_step.
    + cbn [bind buffer_maxsize buffer set_buffer].
      set (kept := most_recent (buffer_maxsize self) (buffer self ++ frames)).
      assert (Hkept : most_recent (buffer_maxsize self) kept = kept).
      { apply most_recent_all. intros Hpos. now apply most_recent_bound. }
      pose proof (evict_most_recent (buffer_maxsize self) kept f) as Hnew.
      rewrite Hkept in Hnew.
      pose proof (evict_most_recent (buffer_maxsize self)
                    (buffer self ++ frames) f) as Hall.
      fold kept in Hall.
      rewrite <- Hnew, Hall, <- app_assoc. reflexivity.
    + exact Hpre.
    + cbn. intros Hpos. now apply most_recent_bound.
Qed.

(** The state after frames are handled while recording, as long as no
    run of unvoiced frames reaches the pause limit. *)
Lemma recording_run (inputs : list (frame * bool)) :
  forall (self : Glados) (limit : Z),
    recording_started self = true ->
    floordiv (PAUSE_LIMIT (conf self)) (VAD_SIZE (conf self)) = Ok limit ->
    gaps_below limit (gap_counter self) inputs = true ->
    _listen_and_respond inputs self
    = Ok (set_gap_counter (gap_after (gap_counter self) inputs)
            (set_samples (samples self ++ List.map fst inputs) self)).
Proof.
  induction inputs as [|[f vad] rest IH]; intros self limit Hrec Hdiv Hgaps.
  - cbn. now rewrite app_nil_r, recording_state_same.
  - cbn [_listen_and_respond]. unfold _handle_audio_sample.
    rewrite Hrec. cbn [negb]. unfold _process_activated_audio.
    cbn [gaps_below] in Hgaps. destruct vad; cbn [negb].
    + cbn [bind]. rewrite (IH _ limit); [|exact Hrec|exact Hdiv|exact Hgaps].
      cbn [gap_after List.map fst gap_counter samples
           set_gap_counter set_samples].
      rewrite <- app_assoc. reflexivity.
    + apply andb_prop in Hgaps as [Hgap Hgaps]. apply Z.ltb_lt in Hgap.
      change (conf (set_gap_counter (gap_counter
                (set_samples (samples self ++ [f]) self) + 1)
                (set_samples (samples self ++ [f]) self)))
        with (conf self).
      rewrite Hdiv. cbn [bind gap_counter set_gap_counter set_samples].
      replace (limit <=? gap_counter self + 1) with false
        by (symmetry; apply Z.leb_gt; exact Hgap).
      cbn [bind]. rewrite (IH _ limit); [|exact Hrec|exact Hdiv|exact Hgaps].
      cbn [gap_after List.map fst gap_counter samples
           set_gap_counter set_samples].
      rewrite <- app_assoc. reflexivity.
Qed.

(** X3. While recording, frames are appended to the utterance and
    recording goes on as long as every run of unvoiced frames is shorter
    than [PAUSE_LIMIT // VAD_SIZE]: a voiced frame resets the gap counter,
    no transcription is started and the LLM queue, the [processing] flag
    and the pre-roll buffer are left alone. *)
Theorem recording_continues_over_short_gaps
    (self : Glados) (inputs : list (frame * bool)) (limit : Z) :
  recording_started self = true ->
  floordiv (PAUSE_LIMIT (conf self)) (VAD_SIZE (conf self)) = Ok limit ->
  gaps_below limit (gap_counter self) inputs = true ->
  exists self',
    _listen_and_respond inputs self = Ok self'
    /\ recording_started self' = true
    /\ samples self' = samples self ++ List.map fst inputs
    /\ gap_counter self' = gap_after (gap_counter self) inputs
    /\ llm_queue self' = llm_queue self
    /\ processing self' = processing self
    /\ buffer self' = buffer self
    /\ input_stream_active self' = input_stream_active self.
Proof.
  intros Hrec Hdiv Hgaps.
  rewrite (recording_run inputs self limit Hrec Hdiv Hgaps).
  eexists. split; [reflexivity|]. repeat split. exact Hrec.
Qed.

(** X4. An utterance handed to the transcription consists of the pre-roll
    buffer as it stands once the activating voiced frame is in it,
    followed by every frame received since, up to and including the
    unvoiced frame with which the gap counter reaches
    [PAUSE_LIMIT // VAD_SIZE].  Transcription starts at that frame, with playback stopped and
    [processing] cleared since the activation. *)
Theorem utterance_is_preroll_then_every_frame
    (self : Glados) (activating last_frame : frame)
    (inputs : list (frame * bool)) (limit : Z) :
  recording_started self = false ->
  (0 < buffer_maxsize self ->
   Z.of_nat (length (buffer self)) <= buffer_maxsize self) ->
  floordiv (PAUSE_LIMIT (conf self)) (VAD_SIZE (conf self)) = Ok limit ->
  gaps_below limit (gap_counter self) inputs = true ->
  limit <= gap_after (gap_counter self) inputs + 1 ->
  exists utterance_state,
    _listen_and_respond
      ((activating, true) :: inputs ++ [(last_frame, false)]) self
    = _process_detected_audio utterance_state
    /\ samples utterance_state
       = most_recent (buffer_maxsize self) (buffer self ++ [activating])
         ++ List.map fst inputs ++ [last_frame]
    /\ recording_started utterance_state = true
    /\ processing utterance_state = false
    /\ playing utterance_state = false
    /\ llm_queue utterance_state = llm_queue self
    /\ messages utterance_state = messages self
    /\ conf utterance_state = conf self
    /\ wake_word utterance_state = wake_word self.
Proof.
  intros Hpre Hbound Hdiv Hgaps Hlimit.
  cbn [_listen_and_respond].
  rewrite (pre_activation_step self activating true Hpre Hbound).
  cbv zeta. cbn [bind].
  set (kept := most_recent (buffer_maxsize self) (buffer self ++ [activating])).
  set (started := set_recording_started true _).
  rewrite _listen_and_respond_app.
  rewrite (recording_run inputs started limit);
    [|reflexivity|exact Hdiv|exact Hgaps].
  change (gap_counter started) with (gap_counter self).
  cbn [bind _listen_and_respond]. unfold _handle_audio_sample.
  cbn [recording_started set_gap_counter set_samples started
       set_recording_started negb].
  unfold _process_activated_audio. cbn [negb].
  match goal with
  | |- context [floordiv (PAUSE_LIMIT (conf ?s)) (VAD_SIZE (conf ?s))] =>
      change (conf s) with (conf self)
  end.
  rewrite Hdiv. cbn [bind gap_counter set_gap_counter set_samples].
  replace (limit <=? gap_after (gap_counter self) inputs + 1) with true
    by (symmetry; apply Z.leb_le; exact Hlimit).
  rewrite bind_Ok.
  match goal with
  | |- exists u, _process_detected_audio ?reached = _ /\ _ => exists reached
  end.
  split; [reflexivity|].
  cbn. rewrite <- app_assoc. repeat split.
Qed.

End Utterance.

Lemma silence_only_fills_the_preroll_buffer_witness :
  _listen_and_respond
    (List.map (fun f => (f, false)) (Demo.frames [py "d"; py "e"]))
    Demo.speaking
  = Ok (set_buffer (Demo.frames [py "c"; py "d"; py "e"]) Demo.speaking).
Proof.
  apply (silence_only_fills_the_preroll_buffer (collab := Demo.collaborators)
           Demo.speaking (Demo.frames [py "d"; py "e"])).
  - reflexivity.
  - intros _. vm_compute. discriminate.
Defined.

Lemma recording_continues_over_short_gaps_witness :
  exists self',
    _listen_and_respond
      [Demo.unvoiced " "; Demo.voiced "hello"; Demo.quiet]
      (Demo.recorded [py "glados"]) = Ok self'
    /\ recording_started self' = true
    /\ samples self' = Demo.frames [py "glados"; py " "; py "hello"; []]
    /\ gap_counter self' = 1
    /\ llm_queue self' = []
    /\ processing self' = false
    /\ buffer self' = []
    /\ input_stream_active self' = true.
Proof.
  apply (recording_continues_over_short_gaps (collab := Demo.collaborators)
           (Demo.recorded [py "glados"])
           [Demo.unvoiced " "; Demo.voiced "hello"; Demo.quiet] 2).
  - reflexivity.
  - reflexivity.
  - reflexivity.
Defined.

Lemma utterance_is_preroll_then_every_frame_witness :
  exists utterance_state,
    _listen_and_respond
      (Demo.voiced "glados"
       :: [Demo.unvoiced " "; Demo.voiced "hello"; Demo.quiet]
          ++ [Demo.quiet])
      (start Demo.fresh)
    = _process_detected_audio utterance_state
    /\ samples utterance_state
       = Demo.frames [py "glados"; py " "; py "hello"; []; []]
    /\ recording_started utterance_state = true
    /\ processing utterance_state = false
    /\ playing utterance_state = false
    /\ llm_queue utterance_state = []
    /\ messages utterance_state = INITIAL_MESSAGES Demo.config
    /\ conf utterance_state = Demo.config
    /\ wake_word utterance_state = Some (py "glados").
Proof.
  apply (utterance_is_preroll_then_every_frame (collab := Demo.collaborators)
           (start Demo.fresh) (Demo.fr (py "glados")) (Demo.fr ([]))
           [Demo.unvoiced " "; Demo.voiced "hello"; Demo.quiet] 2).
  - reflexivity.
  - intros _. vm_compute. discriminate.
  - reflexivity.
  - reflexivity.
  - vm_compute. discriminate.
Defined.


(** ** Further properties of the transcript filter *)

Section Filtering.

Context {collab : Collaborators}.

(** X5. When the transcription is empty no LLM request is made and the
    message log is unchanged; [processing] is set, the recorder is reset
    and the input stream runs again. *)
Theorem empty_transcript_is_ignored (self : Glados) :
  asr (samples self) = Ok [] ->
  exists self',
    _process_detected_audio self = Ok self'
    /\ llm_queue self' = llm_queue self
    /\ messages self' = messages self
    /\ processing self' = true
    /\ recording_started self' = false
    /\ samples self' = []
    /\ gap_counter self' = 0
    /\ buffer self' = []
    /\ input_stream_active self' = true.
Proof.
  intros Hasr. unfold _process_detected_audio.
  change (samples (set_input_stream_active false self)) with (samples self).
  rewrite Hasr. cbn. eexists. split; [reflexivity|]. repeat split.
Qed.

(** X6. Without a wake word, every non-empty transcript that is not a
    hallucination is put at the end of the LLM queue and [processing] is
    set; the recorder is reset and the input stream runs again. *)
Theorem without_wake_word_every_transcript_is_forwarded
    (self : Glados) (text : str) :
  wake_word self = None ->
  asr (samples self) = Ok text ->
  truthy text = true ->
  matches_hallucination self text = false ->
  exists self',
    _process_detected_audio self = Ok self'
    /\ llm_queue self' = llm_queue self ++ [text]
    /\ processing self' = true
    /\ messages self' = messages self
    /\ recording_started self' = false
    /\ samples self' = []
    /\ gap_counter self' = 0
    /\ buffer self' = []
    /\ input_stream_active self' = true.
Proof.
  intros Hw Hasr Htext Hhall. unfold _process_detected_audio.
  change (samples (set_input_stream_active false self)) with (samples self).
  rewrite Hasr. cbn [bind]. rewrite Htext.
  change (conf (set_input_stream_active false self)) with (conf self).
  change (wake_word (set_input_stream_active false self))
    with (wake_word self).
  unfold matches_hallucination in Hhall. rewrite Hhall, Hw. cbn.
  eexists. split; [reflexivity|]. repeat split.
Qed.

(** X8. With a wake word configured, the check answers yes exactly when
    some whitespace-separated token of the transcript, lower-cased, lies
    within a distance below [SIMILARITY_THRESHOLD] of the wake word. *)
Theorem wake_word_detected_iff_some_token_is_close
    (self : Glados) (w text : str) :
  wake_word self = Some w ->
  _wakeword_detected text self = Ok true
  <-> exists t,
        In t (split text)
        /\ distance (lower t) w < SIMILARITY_THRESHOLD (conf self).
Proof.
  intros Hw. rewrite (_wakeword_detected_eq self w text Hw).
  destruct (split text) as [|t0 ts] eqn:Hsplit.
  - unfold token_distances. rewrite Hsplit. cbn. split.
    + discriminate.
    + intros [t [[] _]].
  - destruct (py_min_spec (token_distances w text)) as [m [Hm [Hin Hle]]].
    { unfold token_distances. rewrite Hsplit. discriminate. }
    rewrite Hm. cbn [bind]. unfold token_distances in Hin, Hle.
    rewrite Hsplit in Hin, Hle. split.
    + intros H. injection H as H. apply Z.ltb_lt in H.
      apply in_map_iff in Hin as [t [Ht Hint]].
      exists t. split; [exact Hint|]. now rewrite Ht.
    + intros [t [Hint Hclose]]. f_equal. apply Z.ltb_lt.
      specialize (Hle (distance (lower t) w)
                    (in_map (fun t => distance (lower t) w) _ _ Hint)).
      lia.
Qed.

(** X9. When the wake word is configured and not detected, the transcript
    is dropped without setting [processing], which keeps the value it
    had; the LLM queue and the message log are unchanged, the recorder is
    reset and the input stream runs again. *)
Theorem wake_word_miss_leaves_processing_alone
    (self : Glados) (w text : str) :
  wake_word self = Some w ->
  asr (samples self) = Ok text ->
  truthy text = true ->
  matches_hallucination self text = false ->
  _wakeword_detected text self = Ok false ->
  exists self',
    _process_detected_audio self = Ok self'
    /\ processing self' = processing self
    /\ llm_queue self' = llm_queue self
    /\ messages self' = messages self
    /\ recording_started self' = false
    /\ samples self' = []
    /\ buffer self' = []
    /\ input_stream_active self' = true.
Proof.
  intros Hw Hasr Htext Hhall Hmiss.
  rewrite (_process_detected_audio_gated self w text Hw Hasr Htext Hhall).
  rewrite Hmiss. cbn [bind].
  eexists. split; [reflexivity|]. repeat split.
Qed.

End Filtering.

Lemma empty_transcript_is_ignored_witness :
  exists self',
    _process_detected_audio (Demo.recorded [[]; []]) = Ok self'
    /\ llm_queue self' = []
    /\ messages self' = INITIAL_MESSAGES Demo.config
    /\ processing self' = true
    /\ recording_started self' = false
    /\ samples self' = []
    /\ gap_counter self' = 0
    /\ buffer self' = []
    /\ input_stream_active self' = true.
Proof.
  apply (empty_transcript_is_ignored (collab := Demo.collaborators)
           (Demo.recorded [[]; []])).
  reflexivity.
Defined.

Lemma without_wake_word_every_transcript_is_forwarded_witness :
  exists self',
    _process_detected_audio (Demo.open_mic [py "Hello."]) = Ok self'
    /\ llm_queue self' = [py "Hello."]
    /\ processing self' = true
    /\ messages self' = INITIAL_MESSAGES Demo.config
    /\ recording_started self' = false
    /\ samples self' = []
    /\ gap_counter self' = 0
    /\ buffer self' = []
    /\ input_stream_active self' = true.
Proof.
  apply (without_wake_word_every_transcript_is_forwarded
           (collab := Demo.collaborators)
           (Demo.open_mic [py "Hello."]) (py "Hello.")).
  - reflexivity.
  - reflexivity.
  - reflexivity.
  - vm_compute. reflexivity.
Defined.

Lemma wake_word_detected_iff_some_token_is_close_witness :
  _wakeword_detected (py "gladoss are you there")
    (Demo.recorded [py "gladoss are you there"]) = Ok true.
Proof.
  apply (wake_word_detected_iff_some_token_is_close
           (collab := Demo.collaborators)
           (Demo.recorded [py "gladoss are you there"])
           (py "glados") (py "gladoss are you there")).
  - reflexivity.
  - exists (py "gladoss"). split.
    + vm_compute. left. reflexivity.
    + vm_compute. reflexivity.
Defined.

Lemma wake_word_miss_leaves_processing_alone_witness :
  exists self',
    _process_detected_audio (Demo.recorded [py "What time is it"]) = Ok self'
    /\ processing self' = false
    /\ llm_queue self' = []
    /\ messages self' = INITIAL_MESSAGES Demo.config
    /\ recording_started self' = false
    /\ samples self' = []
    /\ buffer self' = []
    /\ input_stream_active self' = true.
Proof.
  apply (wake_word_miss_leaves_processing_alone
           (collab := Demo.collaborators)
           (Demo.recorded [py "What time is it"])
           (py "glados") (py "What time is it")).
  - reflexivity.
  - reflexivity.
  - reflexivity.
  - vm_compute. reflexivity.
  - vm_compute. reflexivity.
Defined.

(** ** Further properties of the cleanup *)

Section Wording.

(** Text without an opening star or parenthesis is copied. *)
Lemma strip_from_plain_prefix (a rest : str) :
  Forall (fun c => N.eqb c star = false /\ N.eqb c lparen = false) a ->
  strip_from 0 (a ++ rest) = a ++ strip_from 0 rest.
Proof.
  induction 1 as [|c a [Hstar Hparen] _ IH]; [reflexivity|].
  cbn [app strip_from]. now rewrite Hstar, Hparen, IH.
Qed.

(** The closing delimiter is found when neither it nor a newline comes
    before. *)
Lemma close_at_found (d : char) (body rest : str) :
  Forall (fun c => N.eqb c d = false /\ N.eqb c newline = false) body ->
  close_at d (body ++ d :: rest) = Some (S (length body)).
Proof.
  induction 1 as [|c body [Hd Hnl] _ IH]; cbn [app close_at length].
  - now rewrite N.eqb_refl.
  - now rewrite Hd, Hnl, IH.
Qed.

Lemma close_at_missing (d : char) (body : str) :
  Forall (fun c => N.eqb c d = false) body -> close_at d body = None.
Proof.
  induction 1 as [|c body Hd _ IH]; [reflexivity|].
  cbn [close_at]. rewrite Hd, IH. now destruct (N.eqb c newline).
Qed.

Lemma strip_from_skips (matched rest : str) :
  strip_from (length matched) (matched ++ rest) = strip_from 0 rest.
Proof.
  induction matched as [|c matched IH]; [reflexivity|].
  cbn [length app]. destruct rest; cbn [strip_from]; exact IH.
Qed.

(** X12. The first substitution deletes a starred span and a
    parenthesised span that do not run over a newline, delimiters
    included, leaving the text before it untouched; an opening star that
    is never closed stays in place. *)
Theorem stage_directions_are_deleted (before body rest : str) :
  Forall (fun c => N.eqb c star = false /\ N.eqb c lparen = false) before ->
  (Forall (fun c => N.eqb c star = false /\ N.eqb c newline = false) body ->
   sub_stage_directions (before ++ star :: body ++ star :: rest)
   = before ++ sub_stage_directions rest)
  /\ (Forall (fun c => N.eqb c rparen = false /\ N.eqb c newline = false)
        body ->
      sub_stage_directions (before ++ lparen :: body ++ rparen :: rest)
      = before ++ sub_stage_directions rest)
  /\ (Forall (fun c => N.eqb c star = false) body ->
      sub_stage_directions (before ++ star :: body)
      = before ++ star :: sub_stage_directions body).
Proof.
  intros Hbefore. unfold sub_stage_directions. repeat split; intros Hbody.
  - rewrite (strip_from_plain_prefix _ _ Hbefore). f_equal.
    cbn [strip_from]. rewrite (close_at_found star body rest Hbody).
    replace (body ++ star :: rest) with ((body ++ [star]) ++ rest)
      by now rewrite <- app_assoc.
    replace (S (length body)) with (length (body ++ [star]))
      by (rewrite length_app; cbn; lia).
    apply strip_from_skips.
  - rewrite (strip_from_plain_prefix _ _ Hbefore). f_equal.
    cbn [strip_from]. rewrite (close_at_found rparen body rest Hbody).
    replace (body ++ rparen :: rest) with ((body ++ [rparen]) ++ rest)
      by now rewrite <- app_assoc.
    replace (S (length body)) with (length (body ++ [rparen]))
      by (rewrite length_app; cbn; lia).
    apply strip_from_skips.
  - rewrite (strip_from_plain_prefix _ _ Hbefore). f_equal.
    cbn [strip_from]. now rewrite (close_at_missing star body Hbody).
Qed.

End Wording.

Lemma stage_directions_are_deleted_witness :
  sub_stage_directions (py "Hello *whispers softly* there.")
  = py "Hello  there."
  /\ sub_stage_directions (py "Hello (aside) there.") = py "Hello  there."
  /\ sub_stage_directions (py "Hello *whispers") = py "Hello *whispers".
Proof.
  assert (Hbefore :
            Forall (fun c => N.eqb c star = false /\ N.eqb c lparen = false)
              (py "Hello ")) by (repeat constructor).
  destruct (stage_directions_are_deleted (py "Hello ")
              (py "whispers softly") (py " there.") Hbefore)
    as [Hstar _].
  destruct (stage_directions_are_deleted (py "Hello ")
              (py "aside") (py " there.") Hbefore)
    as [_ [Hparen _]].
  destruct (stage_directions_are_deleted (py "Hello ")
              (py "whispers") [] Hbefore)
    as [_ [_ Hopen]].
  split; [|split].
  - apply Hstar. repeat constructor.
  - apply Hparen. repeat constructor.
  - apply Hopen. repeat constructor.
Defined.


(** ** Further properties of the LLM worker *)

Section Worker.

Context {collab : Collaborators}.

(** X11. [_process_sentence] raises [AttributeError], leaving the state
    as it is, exactly when the cleaned sentence is an entry of
    [AI_OUTPUT_TO_IGNORE].  Otherwise it changes nothing but the TTS
    queue, to which it appends one item: a non-empty string of characters
    of the speakable class that is never the end-of-stream marker, so that
    the TTS worker treats it as a sentence to speak. *)
Theorem process_sentence_enqueues_a_speakable_sentence
    (current_sentence : list str) (self : Glados) :
  let cleaned :=
    cleanup (LLM_STOPWORDS (conf self)) (concat current_sentence) in
  (str_in cleaned (AI_OUTPUT_TO_IGNORE (conf self)) = true ->
   _process_sentence current_sentence self = Raise AttributeError)
  /\ (str_in cleaned (AI_OUTPUT_TO_IGNORE (conf self)) = false ->
      _process_sentence current_sentence self
      = Ok (set_tts_queue (tts_queue self ++ [Str cleaned]) self))
  /\ is_EOS (Str cleaned) = false
  /\ item_truthy (Str cleaned) = true
  /\ Forall (fun c => speakable c = true) cleaned.
Proof.
  cbv zeta. rewrite _process_sentence_eq. unfold on_ignore_list, enqueued.
  repeat split.
  - intros Hhit. now rewrite Hhit.
  - intros Hhit. now rewrite Hhit.
  - apply cleanup_not_EOS.
  - apply cleanup_truthy.
  - apply cleanup_speakable.
Qed.

(** The lines after a read of [processing] that yields false are not
    consumed. *)
Lemma iter_lines_break {S} (flush : list str -> S -> result S)
    (before rest : list (bool * option line_record))
    (line : option line_record) :
  forall sentence st,
    iter_lines flush (before ++ (false, line) :: rest) sentence st
    = iter_lines flush before sentence st.
Proof.
  induction before as [|[flag l] before IH]; intros sentence st.
  - reflexivity.
  - cbn [app iter_lines]. destruct flag; cbn [negb]; [|reflexivity].
    destruct l as [l|]; [|apply IH].
    destruct (_process_line l) as [next_token|]; [|apply IH].
    destruct (truthy next_token); [|apply IH].
    destruct (str_in next_token terminators); [|apply IH].
    destruct (flush _ st); [apply IH|reflexivity|reflexivity].
Qed.

(** X13. Once [processing] is read as false the rest of the response is
    abandoned: whatever records follow, the iteration of the LLM worker
    ends in the same state as if the stream had stopped there. *)
Theorem stream_is_abandoned_once_processing_is_cleared
    (before rest : list (bool * option line_record))
    (line : option line_record) (processing_after : bool) (self : Glados) :
  process_LLM (OK (before ++ (false, line) :: rest) processing_after) self
  = process_LLM (OK before processing_after) self.
Proof.
  unfold process_LLM. destruct (llm_queue self); [reflexivity|].
  now rewrite iter_lines_break.
Qed.

(** X14. A line that carries no token (a keep-alive line, a stop record,
    a record with empty content) does not affect what the loop over the
    response produces, wherever it occurs. *)
Theorem lines_without_a_token_are_skipped {S}
    (flush : list str -> S -> result S)
    (before rest : list (bool * option line_record))
    (line : option line_record) (sentence : list str) (st : S) :
  contributes_nothing line = true ->
  iter_lines flush (before ++ (true, line) :: rest) sentence st
  = iter_lines flush (before ++ rest) sentence st.
Proof.
  intros Hnothing. revert sentence st.
  induction before as [|[flag l] before IH]; intros sentence st.
  - cbn [app iter_lines negb]. destruct line as [r|]; [|reflexivity].
    cbn in Hnothing. unfold _process_line.
    destruct (line_stop r); cbn [negb]; [reflexivity|].
    cbn in Hnothing. destruct (truthy (line_content r)); [discriminate|].
    reflexivity.
  - cbn [app iter_lines]. destruct flag; cbn [negb]; [|reflexivity].
    destruct l as [l|]; [|apply IH].
    destruct (_process_line l) as [next_token|]; [|apply IH].
    destruct (truthy next_token); [|apply IH].
    destruct (str_in next_token terminators); [|apply IH].
    destruct (flush _ st); [apply IH|reflexivity|reflexivity].
Qed.

Lemma iter_lines_terminated (lines : list (bool * option line_record)) :
  forall sentence log,
    Forall (fun s => exists body t,
                s = body ++ t /\ str_in t terminators = true) log ->
    Forall (fun s => exists body t,
                s = body ++ t /\ str_in t terminators = true)
      (fst (iter_lines record_flush lines sentence log)).
Proof.
  induction lines as [|[flag line] rest IH]; intros sentence log Hlog;
    [exact Hlog|].
  cbn [iter_lines]. destruct flag; cbn [negb]; [|exact Hlog].
  destruct line as [line|]; [|now apply IH].
  destruct (_process_line line) as [next_token|]; [|now apply IH].
  destruct (truthy next_token); [|now apply IH].
  destruct (str_in next_token terminators) eqn:Hterm; [|now apply IH].
  change (record_flush (sentence ++ [next_token]) log)
    with (Ok (log ++ [concat (sentence ++ [next_token])])).
  cbv beta iota.
  apply IH. apply Forall_app. split; [exact Hlog|].
  constructor; [|constructor].
  exists (concat sentence), next_token. split; [|exact Hterm].
  rewrite concat_app. cbn. now rewrite app_nil_r.
Qed.

(** X15. Every sentence flushed while a stream is consumed ends with a
    terminator token: a sentence is handed over only at a terminator. *)
Theorem flushed_sentences_end_with_a_terminator
    (lines : list (bool * option line_record)) :
  Forall (fun s => exists body t,
              s = body ++ t /\ str_in t terminators = true)
    (flushed_sentences lines).
Proof.
  unfold flushed_sentences. apply iter_lines_terminated. constructor.
Qed.

(** X16. Whatever the outcome of the request, and also when
    [_process_sentence] raises in the middle of the response, an iteration
    of the LLM worker that finds a transcript waiting takes the oldest one
    off the LLM queue, appends it to the message log as a user turn and,
    apart from appending to the TTS queue, changes nothing else. *)
Theorem LLM_worker_logs_the_user_turn
    (resp : response) (self : Glados) (text : str) (waiting : list str) :
  llm_queue self = text :: waiting ->
  exists added,
    fst (process_LLM resp self)
    = set_tts_queue (tts_queue self ++ added)
        (set_messages
           (messages self ++ [{| role := user; content := text |}])
           (set_llm_queue waiting self)).
Proof.
  intros Hq. destruct resp as [| |lines processing_after].
  - exists [].
    rewrite (process_LLM_failed self text waiting ConnectionError Hq eq_refl).
    rewrite app_nil_r. symmetry.
    exact (set_tts_queue_same (set_messages _ (set_llm_queue waiting self))).
  - exists [].
    rewrite (process_LLM_failed self text waiting NotOK Hq eq_refl).
    rewrite app_nil_r. symmetry.
    exact (set_tts_queue_same (set_messages _ (set_llm_queue waiting self))).
  - destruct (process_LLM_OK self text waiting lines processing_after Hq)
      as [items [_ [Hrun|Hrun]]]; rewrite Hrun; cbn [fst].
    + exists (items ++ [Str EOS]). reflexivity.
    + exists items. reflexivity.
Qed.

(** X17. After an OK response none of whose flushed sentences is on the
    ignore list, the TTS queue has grown by the cleaned sentences, then
    the residual sentence as a list of tokens when it is not empty and
    [processing] is still true, then the end-of-stream marker, which
    occurs nowhere before that last position among the items added.  When
    some flushed sentence is on the ignore list, the iteration ends with
    [AttributeError]: the queue has grown by the cleaned sentences that
    come before the first such sentence, and the marker is not put on
    it. *)
Theorem OK_response_ends_with_one_EOS
    (lines : list (bool * option line_record)) (processing_after : bool)
    (self : Glados) (text : str) (waiting : list str) :
  llm_queue self = text :: waiting ->
  (Forall (fun s => on_ignore_list (conf self) s = false)
     (flushed_sentences lines) ->
   exists residual,
     snd (iter_lines record_flush lines [] []) = Ok residual
     /\ snd (process_LLM (OK lines processing_after) self) = Ok tt
     /\ tts_queue (fst (process_LLM (OK lines processing_after) self))
        = tts_queue self
          ++ (List.map (enqueued (conf self)) (flushed_sentences lines)
              ++ (if processing_after && truthy residual
                  then [Toks residual] else []))
          ++ [Str EOS]
     /\ Forall (fun item => is_EOS item = false)
          (List.map (enqueued (conf self)) (flushed_sentences lines)
           ++ (if processing_after && truthy residual
               then [Toks residual] else [])))
  /\ (forall before ignored after,
        flushed_sentences lines = before ++ ignored :: after ->
        Forall (fun s => on_ignore_list (conf self) s = false) before ->
        on_ignore_list (conf self) ignored = true ->
        snd (process_LLM (OK lines processing_after) self)
        = Raise AttributeError
        /\ tts_queue (fst (process_LLM (OK lines processing_after) self))
           = tts_queue self ++ List.map (enqueued (conf self)) before
        /\ Forall (fun item => is_EOS item = false)
             (List.map (enqueued (conf self)) before)).
Proof.
  intros Hq. unfold process_LLM. rewrite Hq.
  set (logged := set_messages _ (set_llm_queue waiting self)).
  destruct (iter_lines_flushed lines logged) as [residual [Hres Hrun]].
  rewrite Hrun. change (conf logged) with (conf self). split.
  - intros Hnone. rewrite (until_ignored_none _ _ Hnone). cbn [fst snd].
    exists residual. split; [exact Hres|]. split; [reflexivity|]. split.
    + destruct (processing_after && truthy residual); cbn;
        now rewrite <- ?app_assoc, ?app_nil_r.
    + apply Forall_app. split; [apply enqueued_not_EOS|].
      destruct (processing_after && truthy residual); repeat constructor.
  - intros before ignored after Hsplit Hbefore Hhit.
    assert (Huntil : until_ignored (conf self) (flushed_sentences lines)
                     = (before, true)).
    { rewrite Hsplit. clear Hsplit.
      induction Hbefore as [|s rest Hs _ IH]; cbn [app until_ignored].
      - now rewrite Hhit.
      - now rewrite Hs, IH. }
    rewrite Huntil. cbn [fst snd]. split; [reflexivity|].
    split; [reflexivity|apply enqueued_not_EOS].
Qed.

(** The traced loop records exactly the sentences that
    [_process_sentence] has put on the queue. *)
Lemma iter_lines_traced (lines : list (bool * option line_record)) :
  forall (sentence : list str) (self : Glados) (log : list str),
  exists new residual,
    iter_lines record_flush lines sentence log = (log ++ new, Ok residual)
    /\ iter_lines traced_flush lines sentence (log, self)
       = ((log ++ fst (until_ignored (conf self) new),
           set_tts_queue
             (tts_queue self
              ++ List.map (enqueued (conf self))
                   (fst (until_ignored (conf self) new)))
             self),
          if snd (until_ignored (conf self) new)
          then Raise AttributeError else Ok residual).
Proof.
  induction lines as [|[flag line] rest IH]; intros sentence self log.
  - exists [], sentence. cbn. now rewrite !app_nil_r, set_tts_queue_same.
  - cbn [iter_lines]. destruct flag; cbn [negb].
    2:{ exists [], sentence. cbn.
        now rewrite !app_nil_r, set_tts_queue_same. }
    destruct line as [line|]; [|apply IH].
    destruct (_process_line line) as [next_token|]; [|apply IH].
    destruct (truthy next_token); [|apply IH].
    destruct (str_in next_token terminators); [|apply IH].
    change (record_flush (sentence ++ [next_token]) log)
      with (Ok (log ++ [concat (sentence ++ [next_token])])).
    unfold traced_flush. cbn [fst snd]. rewrite _process_sentence_eq.
    cbv beta iota.
    destruct (on_ignore_list (conf self) (concat (sentence ++ [next_token])))
      eqn:Hhit; cbn [bind].
    + destruct (IH [] self (log ++ [concat (sentence ++ [next_token])]))
        as [new [residual [Hrec _]]].
      exists (concat (sentence ++ [next_token]) :: new), residual.
      split.
      * rewrite Hrec. now rewrite <- app_assoc.
      * cbn [until_ignored]. rewrite Hhit. cbn.
        now rewrite !app_nil_r, set_tts_queue_same.
    + set (queued :=
             set_tts_queue
               (tts_queue self
                ++ [enqueued (conf self) (concat (sentence ++ [next_token]))])
               self).
      destruct (IH [] queued (log ++ [concat (sentence ++ [next_token])]))
        as [new [residual [Hrec Hrun]]].
      exists (concat (sentence ++ [next_token]) :: new), residual.
      split.
      * rewrite Hrec. now rewrite <- app_assoc.
      * fold (traced_flush) in Hrun |- *. rewrite Hrun.
        cbn [until_ignored]. rewrite Hhit.
        change (conf queued) with (conf self).
        destruct (until_ignored (conf self) new) as [before hit].
        cbn. now rewrite <- !app_assoc.
Qed.

(** X22. For a stream consumed with [processing] true at every read,
    whose last non-stop token is a sentence terminator and none of whose
    flushed sentences is on the ignore list, the flushed sentences, each
    the concatenation of its tokens before cleanup, concatenate to the
    concatenation of the [content] fields of the non-stop records.  These
    are the sentences [_process_sentence] receives in [process_LLM], none
    of which makes it raise: the TTS queue grows by the cleaned form of
    each and no residual sentence is left. *)
Theorem flushed_sentences_cover_stream_unless_ignored
    (lines : list (bool * option line_record)) (self : Glados) :
  Forall (fun l => fst l = true) lines ->
  (exists before t,
      nonstop_contents lines = before ++ [t]
      /\ str_in t terminators = true) ->
  Forall (fun s => on_ignore_list (conf self) s = false)
    (flushed_sentences lines) ->
  concat (flushed_sentences lines) = concat (nonstop_contents lines)
  /\ iter_lines _process_sentence lines [] self
     = (set_tts_queue
          (tts_queue self
           ++ List.map (enqueued (conf self)) (flushed_sentences lines))
          self,
        Ok [])
  /\ iter_lines traced_flush lines [] ([], self)
     = ((flushed_sentences lines,
         set_tts_queue
           (tts_queue self
            ++ List.map (enqueued (conf self)) (flushed_sentences lines))
           self),
        Ok []).
Proof.
  intros Hflags [before [t [Hsplit Hterm]]] Hnone.
  assert (Hlast : exists before t after,
             nonstop_contents lines = before ++ t :: after
             /\ str_in t terminators = true
             /\ Forall (fun t => truthy t = false) after).
  { exists before, t, []. auto. }
  destruct (iter_lines_flushed lines self) as [residual [Hres Hrun]].
  assert (Hempty : residual = []).
  { exact (iter_lines_residual record_flush lines [] [] residual
             Hflags Hlast Hres). }
  subst residual.
  rewrite (until_ignored_none _ _ Hnone) in Hrun. cbn [fst snd] in Hrun.
  split; [|split].
  - pose proof (iter_lines_concat lines [] [] (flushed_sentences lines) []
                  Hflags) as Hcat.
    cbn in Hcat. rewrite app_nil_r in Hcat. apply Hcat.
    unfold flushed_sentences.
    destruct (iter_lines record_flush lines [] []) as [log outcome].
    cbn in Hres |- *. now rewrite Hres.
  - exact Hrun.
  - destruct (iter_lines_traced lines [] self [])
      as [new [residual [Hrec Htraced]]].
    assert (Hnew : new = flushed_sentences lines).
    { unfold flushed_sentences. now rewrite Hrec. }
    rewrite Hrec in Hres. cbn in Hres. injection Hres as ->.
    subst new. rewrite (until_ignored_none _ _ Hnone) in Htraced.
    exact Htraced.
Qed.

End Worker.

Lemma lines_without_a_token_are_skipped_witness :
  iter_lines _process_sentence
    ([Demo.tok "Hi"; Demo.tok "."] ++ Demo.stop_record :: [Demo.tok "Bye"])
    [] (Demo.asked (py "glados hello"))
  = iter_lines _process_sentence
      ([Demo.tok "Hi"; Demo.tok "."] ++ [Demo.tok "Bye"])
      [] (Demo.asked (py "glados hello")).
Proof.
  exact (lines_without_a_token_are_skipped _process_sentence
           [Demo.tok "Hi"; Demo.tok "."] [Demo.tok "Bye"]
           (snd Demo.stop_record) [] (Demo.asked (py "glados hello"))
           eq_refl).
Defined.

Lemma LLM_worker_logs_the_user_turn_witness :
  exists added,
    fst (process_LLM (OK Demo.three_sentences true) Demo.picky_asked)
    = set_tts_queue added
        (set_messages
           (INITIAL_MESSAGES Demo.picky_config
            ++ [{| role := user; content := py "glados hello" |}])
           (set_llm_queue [] Demo.picky_asked)).
Proof.
  exact (LLM_worker_logs_the_user_turn (collab := Demo.collaborators)
           (OK Demo.three_sentences true) Demo.picky_asked
           (py "glados hello") [] eq_refl).
Defined.

Lemma OK_response_ends_with_one_EOS_witness :
  (exists residual,
      snd (iter_lines record_flush Demo.unfinished_stream [] [])
      = Ok residual
      /\ snd (process_LLM (OK Demo.unfinished_stream true)
                (Demo.asked (py "glados hello"))) = Ok tt
      /\ tts_queue
           (fst (process_LLM (OK Demo.unfinished_stream true)
                   (Demo.asked (py "glados hello"))))
         = [] ++ ([Str (py "Hi. ")]
                  ++ (if true && truthy residual
                      then [Toks residual] else []))
              ++ [Str EOS])
  /\ snd (process_LLM (OK Demo.three_sentences true) Demo.picky_asked)
     = Raise AttributeError
  /\ tts_queue
       (fst (process_LLM (OK Demo.three_sentences true) Demo.picky_asked))
     = [Str (py "Hi. ")].
Proof.
  destruct (OK_response_ends_with_one_EOS (collab := Demo.collaborators)
              Demo.unfinished_stream true (Demo.asked (py "glados hello"))
              (py "glados hello") [] eq_refl) as [Hdone _].
  destruct (OK_response_ends_with_one_EOS (collab := Demo.collaborators)
              Demo.three_sentences true Demo.picky_asked
              (py "glados hello") [] eq_refl) as [_ Hraised].
  split.
  - destruct Hdone as [residual [Hres [Hok [Hqueue _]]]].
    + repeat constructor.
    + exists residual. auto.
  - destruct (Hraised [py "Hi."] (py "Bye.") [py "Wait!"])
      as [Hout [Hqueue _]].
    + reflexivity.
    + repeat constructor.
    + reflexivity.
    + split; [exact Hout|exact Hqueue].
Defined.

Lemma flushed_sentences_cover_stream_unless_ignored_witness :
  concat (flushed_sentences Demo.stream)
  = py "Hello*whispers*(aside).How are you?"
  /\ iter_lines _process_sentence Demo.stream []
       (Demo.asked (py "glados hello"))
     = (set_tts_queue [Str (py "Hello. "); Str (py "How are you? ")]
          (Demo.asked (py "glados hello")),
        Ok [])
  /\ iter_lines traced_flush Demo.stream []
       ([], Demo.asked (py "glados hello"))
     = (([py "Hello*whispers*(aside)."; py "How are you?"],
         set_tts_queue [Str (py "Hello. "); Str (py "How are you? ")]
           (Demo.asked (py "glados hello"))),
        Ok []).
Proof.
  apply (flushed_sentences_cover_stream_unless_ignored
           (collab := Demo.collaborators)
           Demo.stream (Demo.asked (py "glados hello"))).
  - repeat constructor.
  - exists [py "He"; py "llo"; py "*whispers*"; py "(aside)"; py ".";
            py "How"; py " are"; py " you"], (py "?").
    split; reflexivity.
  - repeat constructor.
Defined.

(** ** Further properties of the TTS worker *)

Section Speaking.

Context {collab : Collaborators}.

Lemma tts_frame_refl (self : Glados) : tts_frame self self.
Proof.
  repeat split. exists []. split; [now rewrite app_nil_r|constructor].
Qed.

Lemma tts_frame_trans (a b c : Glados) :
  tts_frame a b -> tts_frame b c -> tts_frame a c.
Proof.
  intros [H1 [H2 [H3 [H4 [H5 [H6 [H7 [H8 [H9 [x [Hx Hrx]]]]]]]]]]]
         [K1 [K2 [K3 [K4 [K5 [K6 [K7 [K8 [K9 [y [Hy Hry]]]]]]]]]]].
  repeat split; try congruence.
  exists (x ++ y). split.
  - rewrite Hy, Hx. now rewrite app_assoc.
  - apply Forall_app. now split.
Qed.

Ltac tts_step_done :=
  let H := fresh in
  intros H; injection H as <- <-; cbn; split;
  [repeat split;
   first [exists []; split; [now rewrite app_nil_r|constructor]
         |eexists; split; [reflexivity|repeat constructor]]
  |lia].

(** One iteration of the worker that does not raise takes at least one
    item off a non-empty queue and stays within its frame. *)
Lemma process_TTS_thread_frame (env : tts_env) (self self' : Glados)
    (loc loc' : tts_locals) :
  process_TTS_thread env (self, loc) = Ok (self', loc') ->
  tts_frame self self'
  /\ (length (tts_queue self') <= pred (length (tts_queue self)))%nat.
Proof.
  unfold process_TTS_thread.
  destruct (tts_queue self) as [|item waiting] eqn:Hq.
  { intros H. injection H as <- <-. split; [apply tts_frame_refl|].
    rewrite Hq. cbn. lia. }
  destruct (is_EOS item).
  { cbn. destruct (assistant_text loc); cbn; [discriminate|tts_step_done]. }
  destruct (item_truthy item); cbn [negb].
  2:{ cbn. destruct (finished loc);
        [destruct (assistant_text loc); cbn; [discriminate|]|];
        tts_step_done. }
  destruct (0 <? total_samples env)%nat.
  2:{ cbn. destruct (finished loc);
        [destruct (assistant_text loc); cbn; [discriminate|]|];
        tts_step_done. }
  unfold percentage_played.
  destruct (existsb negb (polls (monitor env))).
  - destruct (clip_item item _); cbn; try discriminate.
    destruct (assistant_text loc ++ [item]); cbn; [discriminate|].
    tts_step_done.
  - cbn. destruct (finished loc);
      [destruct (assistant_text loc ++ [item]); cbn; [discriminate|]|];
      tts_step_done.
Qed.

Lemma TTS_iterations_frame (fuel : nat) :
  forall (env : nat -> tts_env) (k : nat) (st st' : Glados * tts_locals),
    TTS_iterations fuel env k st = Ok st' ->
    tts_frame (fst st) (fst st')
    /\ ((length (tts_queue (fst st)) <= fuel)%nat ->
        tts_queue (fst st') = []).
Proof.
  induction fuel as [|fuel IH]; intros env k [self loc] [self' loc'] Hrun.
  - cbn in Hrun. injection Hrun as <- <-. split; [apply tts_frame_refl|].
    cbn. destruct (tts_queue self); cbn; [reflexivity|lia].
  - cbn [TTS_iterations fst] in Hrun. cbn [fst].
    destruct (tts_queue self) as [|item waiting] eqn:Hq.
    + injection Hrun as <- <-. split; [apply tts_frame_refl|auto].
    + destruct (process_TTS_thread (env k) (self, loc))
        as [[self1 loc1]| |] eqn:Hstep; try discriminate.
      cbn [bind] in Hrun.
      destruct (process_TTS_thread_frame _ _ _ _ _ Hstep) as [Hf1 Hlen].
      destruct (IH _ _ _ _ Hrun) as [Hf2 Hempty]. cbn [fst] in Hf2, Hempty.
      split; [exact (tts_frame_trans _ _ _ Hf1 Hf2)|].
      intros Hfuel. apply Hempty. rewrite Hq in Hlen. cbn in Hlen, Hfuel.
      lia.
Qed.

(** X20. However many iterations it makes, the TTS worker only ever
    appends assistant turns to the message log, and it never changes the
    LLM queue, the recorder, the [processing] flag or the
    configuration. *)
Theorem TTS_worker_only_appends_assistant_turns
    (fuel : nat) (env : nat -> tts_env) (k : nat)
    (st st' : Glados * tts_locals) :
  TTS_iterations fuel env k st = Ok st' ->
  (exists turns,
      messages (fst st') = messages (fst st) ++ turns
      /\ Forall (fun m => role m = assistant) turns)
  /\ llm_queue (fst st') = llm_queue (fst st)
  /\ samples (fst st') = samples (fst st)
  /\ buffer (fst st') = buffer (fst st)
  /\ recording_started (fst st') = recording_started (fst st)
  /\ processing (fst st') = processing (fst st)
  /\ conf (fst st') = conf (fst st).
Proof.
  intros Hrun.
  destruct (TTS_iterations_frame fuel env k st st' Hrun)
    as [[H1 [H2 [H3 [H4 [H5 [H6 [H7 [H8 [H9 H10]]]]]]]]] _].
  auto 10.
Qed.

(** X21. When the TTS worker has worked through its queue without
    raising, the queue is empty: every iteration takes an item off it, and
    an interruption discards the rest. *)
Theorem TTS_drain_empties_the_queue
    (env : nat -> tts_env) (st st' : Glados * tts_locals) :
  TTS_drain env st = Ok st' -> tts_queue (fst st') = [].
Proof.
  unfold TTS_drain. intros Hrun.
  destruct (TTS_iterations_frame _ env 0%nat st st' Hrun) as [_ Hempty].
  apply Hempty. lia.
Qed.

(** X19. Barge-in.  When [processing] is read as false while a sentence
    is being played, playback is stopped, the sentences still waiting on
    the TTS queue are discarded and the assistant turn is appended at
    once, from the first item the worker holds for this turn. *)
Theorem barge_in_commits_and_clears_the_queue
    (env : tts_env) (self : Glados) (loc : tts_locals)
    (sentence : str) (waiting : list tts_item) :
  tts_queue self = Str sentence :: waiting ->
  str_eqb sentence EOS = false ->
  truthy sentence = true ->
  (0 < total_samples env)%nat ->
  existsb negb (polls (monitor env)) = true ->
  exists self' loc' spoken,
    process_TTS_thread env (self, loc) = Ok (self', loc')
    /\ first (assistant_text loc ++ [Str sentence]) = Ok spoken
    /\ messages self'
       = messages self
         ++ [{| role := assistant; content := join space (elements spoken) |}]
    /\ tts_queue self' = []
    /\ playing self' = false
    /\ assistant_text loc' = []
    /\ finished loc' = false
    /\ interrupted loc' = false.
Proof.
  intros Hq Heos Htruthy Haudio Hpoll.
  unfold process_TTS_thread. rewrite Hq. cbn [is_EOS item_truthy].
  rewrite Heos, Htruthy. cbn [negb].
  apply Nat.ltb_lt in Haudio. rewrite Haudio.
  unfold percentage_played. rewrite Hpoll. cbn [clip_item bind].
  cbn [assistant_text finished].
  destruct (assistant_text loc ++ [Str sentence]) as [|spoken others] eqn:Happ.
  { destruct (assistant_text loc); discriminate. }
  cbn. do 3 eexists. split; [reflexivity|]. repeat split.
Qed.

(** X18. When an OK response yields no sentence at all, because
    [processing] was already false at the first read or because the
    stream carries no token, only the end-of-stream marker reaches the TTS
    worker, which then raises [IndexError] on taking the first element of
    an empty list. *)
Theorem response_without_sentence_raises_in_the_TTS_worker
    (t : turn) (self : Glados) (loc : tts_locals)
    (lines : list (bool * option line_record)) (processing_after : bool) :
  llm_queue self = [] ->
  tts_queue self = [] ->
  assistant_text loc = [] ->
  turn_response t = OK lines processing_after ->
  (Forall (fun token => truthy token = false) (nonstop_contents lines)
   \/ exists line rest, lines = (false, line) :: rest) ->
  run_turn t (self, loc) = Raise IndexError.
Proof.
  intros Hllm Htts Htext Hresp Hnone.
  unfold run_turn. rewrite Hresp. unfold process_LLM.
  cbn [forward_to_llm llm_queue set_processing set_llm_queue].
  rewrite Hllm. cbn [app].
  match goal with
  | |- context [iter_lines _process_sentence lines [] ?s] =>
      assert (Hloop : iter_lines _process_sentence lines [] s = (s, Ok []))
  end.
  { destruct Hnone as [Hnone|[line [rest ->]]].
    - now apply iter_lines_no_tokens.
    - reflexivity. }
  rewrite Hloop. rewrite andb_false_r. cbn [bind].
  unfold TTS_drain. cbn [fst tts_queue set_tts_queue set_messages].
  change (tts_queue (set_llm_queue [] (forward_to_llm (turn_text t) self)))
    with (tts_queue self).
  rewrite Htts. cbn [app length TTS_iterations fst tts_queue set_tts_queue].
  unfold process_TTS_thread.
  cbn [tts_queue set_tts_queue]. cbn [is_EOS].
  change (str_eqb EOS EOS) with true. cbn [bind finished assistant_text].
  rewrite Htext. reflexivity.
Qed.

End Speaking.

Lemma response_without_sentence_raises_in_the_TTS_worker_witness :
  run_turn Demo.cut_short_turn (start Demo.fresh, tts_start)
  = Raise IndexError.
Proof.
  apply (response_without_sentence_raises_in_the_TTS_worker
           (collab := Demo.collaborators)
           Demo.cut_short_turn (start Demo.fresh) tts_start
           ((false, None) :: Demo.stream) true).
  - reflexivity.
  - reflexivity.
  - reflexivity.
  - reflexivity.
  - right. exists None, Demo.stream. reflexivity.
Defined.

Lemma barge_in_commits_and_clears_the_queue_witness :
  exists self' loc' spoken,
    process_TTS_thread Demo.barged_in (Demo.two_sentences, tts_start)
    = Ok (self', loc')
    /\ first ([] ++ [Str (py "Hello. ")]) = Ok spoken
    /\ messages self'
       = messages Demo.two_sentences
         ++ [{| role := assistant; content := join space (elements spoken) |}]
    /\ tts_queue self' = []
    /\ playing self' = false
    /\ assistant_text loc' = []
    /\ finished loc' = false
    /\ interrupted loc' = false.
Proof.
  apply (barge_in_commits_and_clears_the_queue
           (collab := Demo.collaborators)
           Demo.barged_in Demo.two_sentences tts_start (py "Hello. ")
           [Str (py "How are you? "); Str EOS]).
  - reflexivity.
  - reflexivity.
  - reflexivity.
  - cbn. lia.
  - reflexivity.
Defined.

Lemma TTS_worker_only_appends_assistant_turns_witness :
  exists st',
    TTS_iterations 2 (fun _ => Demo.played) 0 (Demo.two_sentences, tts_start)
    = Ok st'
    /\ (exists turns,
          messages (fst st') = messages Demo.two_sentences ++ turns
          /\ Forall (fun m => role m = assistant) turns)
    /\ llm_queue (fst st') = [].
Proof.
  destruct (TTS_iterations 2 (fun _ => Demo.played) 0
              (Demo.two_sentences, tts_start)) as [st'| |] eqn:Hrun.
  - exists st'. split; [reflexivity|].
    destruct (TTS_worker_only_appends_assistant_turns
                (collab := Demo.collaborators) 2 (fun _ => Demo.played) 0
                (Demo.two_sentences, tts_start) st' Hrun)
      as [Hturns [Hllm _]].
    split; [exact Hturns|exact Hllm].
  - vm_compute in Hrun. discriminate Hrun.
  - vm_compute in Hrun. discriminate Hrun.
Defined.

Lemma TTS_drain_empties_the_queue_witness :
  exists st',
    TTS_drain (fun _ => Demo.barged_in) (Demo.two_sentences, tts_start)
    = Ok st'
    /\ tts_queue (fst st') = [].
Proof.
  destruct (TTS_drain (fun _ => Demo.barged_in)
              (Demo.two_sentences, tts_start)) as [st'| |] eqn:Hrun.
  - exists st'. split; [reflexivity|].
    exact (TTS_drain_empties_the_queue (collab := Demo.collaborators)
             (fun _ => Demo.barged_in) (Demo.two_sentences, tts_start)
             st' Hrun).
  - vm_compute in Hrun. discriminate Hrun.
  - vm_compute in Hrun. discriminate Hrun.
Defined.
